(** * Akh-Medu font generator: a shallow embedding of [scripts/build_font.py]

    The script draws 67 private-use glyphs with a handful of geometric
    primitives into a charstring pen and hands the outlines, the glyph
    order and the character map to the font builder.

    The embedding follows the script:
    - Python integers are [Z]; [//] is floor division ([Z.div]);
    - Python floats are IEEE binary64 values, modelled with the Standard
      Library's executable specification [SpecFloat] (round to nearest
      even), so [int(k * r)] is computed as the interpreter computes it;
    - the [math] module ([pi], [cos], [sin]) is an interface ([Math]);
    - a pen is mutable state that records the path commands it receives;
      drawing routines run in a small state-and-exception monad;
    - dictionaries are [gmap]s. *)

From Stdlib Require Import ZArith List Bool Ascii String Lia.
From Corelib Require Import SpecFloat.
From stdpp Require Import base option list gmap strings sorting.

Local Open Scope string_scope.
Local Open Scope list_scope.
Local Open Scope Z_scope.

(** ** Python results *)

Module Py.

Inductive exn : Type :=
| OverflowError   (* int too large to convert to float; int(inf) *)
| ValueError      (* int(nan); int(s, 16) on a malformed string *)
| IndexError.     (* points[0] on an empty list *)

Inductive result (A : Type) : Type :=
| Ok (a : A)
| Raise (e : exn).
Arguments Ok {A} a.
Arguments Raise {A} e.

Definition bind {A B} (r : result A) (f : A -> result B) : result B :=
  match r with
  | Ok a => f a
  | Raise e => Raise e
  end.

#[global] Instance result_ret : MRet result := @Ok.
#[global] Instance result_bind : MBind result := fun A B f r => bind r f.

#[global] Instance exn_eq_dec : EqDecision exn.
Proof. solve_decision. Defined.
#[global] Instance result_eq_dec {A} `{EqDecision A} : EqDecision (result A).
Proof. solve_decision. Defined.

Definition raised {A} (r : result A) : bool :=
  match r with Ok _ => false | Raise _ => true end.

Fixpoint mapM {A B} (f : A -> result B) (l : list A) : result (list B) :=
  match l with
  | [] => Ok []
  | a :: l' => bind (f a) (fun b => bind (mapM f l') (fun bs => Ok (b :: bs)))
  end.

End Py.

Abbreviation Ok := Py.Ok.
Abbreviation Raise := Py.Raise.

(** ** IEEE binary64 arithmetic, as CPython's [float] uses it *)

Module Float64.

Definition prec : Z := 53.
Definition emax : Z := 1024.

Abbreviation float := spec_float.

(** [float(n)] for a Python int: correctly rounded (half to even);
    [OverflowError] when the rounded value is not finite. *)
Definition of_int (n : Z) : Py.result float :=
  match binary_normalize prec emax n 0 false with
  | S754_infinity _ => Raise Py.OverflowError
  | S754_nan => Raise Py.ValueError
  | f => Ok f
  end.

Definition mul : float -> float -> float := SFmul prec emax.
Definition add : float -> float -> float := SFadd prec emax.
Definition div : float -> float -> float := SFdiv prec emax.

(** [int(x)] for a float: truncation toward zero; [OverflowError] on an
    infinity, [ValueError] on a NaN. *)
Definition to_int (x : float) : Py.result Z :=
  match x with
  | S754_zero _ => Ok 0
  | S754_infinity _ => Raise Py.OverflowError
  | S754_nan => Raise Py.ValueError
  | S754_finite s m e =>
      let mag := match e with
                 | Z0 => Zpos m
                 | Zpos p => Z.shiftl (Zpos m) (Zpos p)
                 | Zneg p => Z.shiftr (Zpos m) (Zpos p)
                 end in
      Ok (if s then - mag else mag)
  end.

(** A decimal literal [num / 10^digits] of the source text. CPython reads
    a literal as the binary64 value nearest to the decimal (ties to
    even); with numerator and denominator below 2^53 that value is the
    correctly rounded quotient of the two integers. *)
Definition literal (num : Z) (digits : Z) : float :=
  div (binary_normalize prec emax num 0 false)
      (binary_normalize prec emax (10 ^ digits) 0 false).

(** [x * n] and [n * x] with [n] a Python int: [n] is converted first. *)
Definition mul_int (x : float) (n : Z) : Py.result float :=
  Py.bind (of_int n) (fun fn => Ok (mul x fn)).
Definition int_mul (n : Z) (x : float) : Py.result float :=
  Py.bind (of_int n) (fun fn => Ok (mul fn x)).
(** [x / n] with [n] a nonzero Python int literal. *)
Definition div_int (x : float) (n : Z) : Py.result float :=
  Py.bind (of_int n) (fun fn => Ok (div x fn)).

End Float64.

(** ** The [math] module

    [math.cos] and [math.sin] are the platform's C library functions; the
    script only relies on their being functions from floats to floats. *)

Class Math := {
  math_pi : Float64.float;
  math_cos : Float64.float -> Float64.float;
  math_sin : Float64.float -> Float64.float
}.

(** ** Path commands and the charstring pen *)

Definition Point : Type := Z * Z.

Inductive PathCommand : Type :=
| MoveTo (p : Point)
| LineTo (p : Point)
| CurveTo (c1 c2 p : Point)
| ClosePath
| EndPath.

#[global] Instance PathCommand_eq_dec : EqDecision PathCommand.
Proof. solve_decision. Defined.

(** [T2Pen(width, glyphSet)]: the advance width it was created with and the
    commands drawn so far, oldest first. *)
Record T2Pen : Type := mkPen {
  pen_width : Z;
  pen_program : list PathCommand
}.

Definition emit (pen : T2Pen) (cmds : list PathCommand) : T2Pen :=
  mkPen (pen_width pen) (pen_program pen ++ cmds).

(** A drawing routine mutates the pen it is given and may raise; whatever
    it drew before raising stays in the pen. *)
Definition Draw (A : Type) : Type := T2Pen -> Py.result A * T2Pen.

Definition ret {A} (a : A) : Draw A := fun pen => (Ok a, pen).

Definition bind {A B} (f : A -> Draw B) (m : Draw A) : Draw B :=
  fun pen =>
    match m pen with
    | (Py.Ok a, pen') => f a pen'
    | (Py.Raise e, pen') => (Raise e, pen')
    end.

(** Sequencing is written with stdpp's monad notation: [x ← m; k] and
    [m ;; k]. *)
#[global] Instance Draw_ret : MRet Draw := @ret.
#[global] Instance Draw_bind : MBind Draw := @bind.

(** A computation that touches no pen, run inside a drawing routine. *)
Definition lift {A} (r : Py.result A) : Draw A := fun pen => (r, pen).

Definition moveTo (p : Point) : Draw unit := fun pen => (Ok tt, emit pen [MoveTo p]).
Definition lineTo (p : Point) : Draw unit := fun pen => (Ok tt, emit pen [LineTo p]).
Definition curveTo (c1 c2 p : Point) : Draw unit :=
  fun pen => (Ok tt, emit pen [CurveTo c1 c2 p]).
Definition closePath : Draw unit := fun pen => (Ok tt, emit pen [ClosePath]).
Definition endPath : Draw unit := fun pen => (Ok tt, emit pen [EndPath]).

(** [for x in xs: body(x)] *)
Fixpoint for_each {A} (xs : list A) (body : A -> Draw unit) : Draw unit :=
  match xs with
  | [] => ret tt
  | x :: xs' => body x ;; for_each xs' body
  end.

(** [range(n)] *)
Definition range (n : nat) : list Z := map Z.of_nat (seq 0 n).

(** ** Font metrics (monospace, 1000 units per em) *)

Definition UPM : Z := 1000.
Definition ASCENT : Z := 800.
Definition DESCENT : Z := -200.
Definition ADVANCE_WIDTH : Z := 600.

Definition M : Z := 50.
Definition W : Z := ADVANCE_WIDTH - 2 * M.
Definition H : Z := ASCENT - M.

(** ** Primitive shapes *)

Definition triangle_up (cx cy size : Z) : Draw unit :=
  let half := size / 2 in
  moveTo (cx, cy + half);;
  lineTo (cx + half, cy - half);;
  lineTo (cx - half, cy - half);;
  closePath.

Definition triangle_down (cx cy size : Z) : Draw unit :=
  let half := size / 2 in
  moveTo (cx, cy - half);;
  lineTo (cx + half, cy + half);;
  lineTo (cx - half, cy + half);;
  closePath.

Definition diamond (cx cy size : Z) : Draw unit :=
  let half := size / 2 in
  moveTo (cx, cy + half);;
  lineTo (cx + half, cy);;
  lineTo (cx, cy - half);;
  lineTo (cx - half, cy);;
  closePath.

(** [int(k * n)] for a float [k] and an int [n]. *)
Definition int_of_product (k : Float64.float) (n : Z) : Py.result Z :=
  x ← Float64.mul_int k n; Float64.to_int x.

(** [int(n * x)] for an int [n] and a float [x]. *)
Definition int_of_scaled (n : Z) (x : Float64.float) : Py.result Z :=
  y ← Float64.int_mul n x; Float64.to_int y.

(** The literal [0.5522847498]. *)
Definition circle_k : Float64.float := Float64.literal 5522847498 10.

Definition circle (cx cy r : Z) : Draw unit :=
  let k := circle_k in
  kr ← lift (int_of_product k r);
  moveTo (cx, cy + r);;
  curveTo (cx + kr, cy + r) (cx + r, cy + kr) (cx + r, cy);;
  curveTo (cx + r, cy - kr) (cx + kr, cy - r) (cx, cy - r);;
  curveTo (cx - kr, cy - r) (cx - r, cy - kr) (cx - r, cy);;
  curveTo (cx - r, cy + kr) (cx - kr, cy + r) (cx, cy + r);;
  closePath.

(** The literal [0.55]. *)
Definition arc_k : Float64.float := Float64.literal 55 2.

Definition arc_left (cx cy size : Z) : Draw unit :=
  let half := size / 2 in
  k ← lift (int_of_product arc_k half);
  moveTo (cx + half, cy + half);;
  curveTo (cx + half - k, cy + half) (cx, cy + k) (cx, cy);;
  curveTo (cx, cy - k) (cx + half - k, cy - half) (cx + half, cy - half);;
  endPath.

Definition arc_right (cx cy size : Z) : Draw unit :=
  let half := size / 2 in
  k ← lift (int_of_product arc_k half);
  moveTo (cx - half, cy + half);;
  curveTo (cx - half + k, cy + half) (cx, cy + k) (cx, cy);;
  curveTo (cx, cy - k) (cx - half + k, cy - half) (cx - half, cy - half);;
  endPath.

Definition arrow_right (cx cy size : Z) : Draw unit :=
  let half := size / 2 in
  let qtr := size / 4 in
  moveTo (cx - half, cy - qtr);;
  lineTo (cx, cy - qtr);;
  lineTo (cx, cy - half);;
  lineTo (cx + half, cy);;
  lineTo (cx, cy + half);;
  lineTo (cx, cy + qtr);;
  lineTo (cx - half, cy + qtr);;
  closePath.

Definition arrow_up (cx cy size : Z) : Draw unit :=
  let half := size / 2 in
  let qtr := size / 4 in
  moveTo (cx, cy + half);;
  lineTo (cx + half, cy);;
  lineTo (cx + qtr, cy);;
  lineTo (cx + qtr, cy - half);;
  lineTo (cx - qtr, cy - half);;
  lineTo (cx - qtr, cy);;
  lineTo (cx - half, cy);;
  closePath.

Definition arrow_down (cx cy size : Z) : Draw unit :=
  let half := size / 2 in
  let qtr := size / 4 in
  moveTo (cx, cy - half);;
  lineTo (cx + half, cy);;
  lineTo (cx + qtr, cy);;
  lineTo (cx + qtr, cy + half);;
  lineTo (cx - qtr, cy + half);;
  lineTo (cx - qtr, cy);;
  lineTo (cx - half, cy);;
  closePath.

Definition box_rect (x y w h : Z) : Draw unit :=
  moveTo (x, y);;
  lineTo (x + w, y);;
  lineTo (x + w, y + h);;
  lineTo (x, y + h);;
  closePath.

(** The angle of the [i]-th vertex of the star:
    [math.pi / 2 + i * math.pi / 5]. *)
Definition star_angle `{Math} (i : Z) : Py.result Float64.float :=
  quarter ← Float64.div_int math_pi 2;
  ipi ← Float64.int_mul i math_pi;
  step ← Float64.div_int ipi 5;
  Ok (Float64.add quarter step).

(** One iteration of the loop of [star_5]: the [i]-th vertex. *)
Definition star_point `{Math} (cx cy outer_r inner_r : Z) (i : Z) : Py.result Point :=
  let r := if Z.eqb (i mod 2) 0 then outer_r else inner_r in
  angle ← star_angle i;
  dx ← int_of_scaled r (math_cos angle);
  let px := cx + dx in
  dy ← int_of_scaled r (math_sin angle);
  let py := cy + dy in
  Ok (px, py).

Definition star_5 `{Math} (cx cy outer_r inner_r : Z) : Draw unit :=
  points ← lift (Py.mapM (star_point cx cy outer_r inner_r) (range 10));
  match points with
  | [] => lift (Raise Py.IndexError)
  | p0 :: rest =>
      moveTo p0;;
      for_each rest lineTo;;
      closePath
  end.

Definition cross (cx cy size : Z) : Draw unit :=
  let t := size / 6 in
  let half := size / 2 in
  box_rect (cx - half) (cy - t) size (2 * t);;
  box_rect (cx - t) (cy - half) (2 * t) size.

Definition wave (cx cy size : Z) : Draw unit :=
  let half := size / 2 in
  let qtr := size / 4 in
  moveTo (cx - half, cy);;
  curveTo (cx - qtr, cy + qtr) (cx, cy + qtr) (cx, cy);;
  curveTo (cx, cy - qtr) (cx + qtr, cy - qtr) (cx + half, cy);;
  endPath.

Definition dot_glyph (cx cy size : Z) : Draw unit :=
  circle cx cy (size / 6).

(** ** Composite pictograms *)

Definition house (cx cy size : Z) : Draw unit :=
  let half := size / 2 in
  let qtr := size / 4 in
  box_rect (cx - half + qtr) (cy - half) half half;;
  triangle_up cx (cy + qtr) half.

Definition pillar (cx cy size : Z) : Draw unit :=
  let t := size / 8 in
  let half := size / 2 in
  box_rect (cx - t) (cy - half) (2 * t) size;;
  box_rect (cx - t * 2) (cy + half - t) (4 * t) t;;
  box_rect (cx - t * 2) (cy - half) (4 * t) t.

Definition person (cx cy size : Z) : Draw unit :=
  let head_r := size / 6 in
  circle cx (cy + size / 3) head_r;;
  let body_h := size / 2 in
  let body_w := size / 3 in
  moveTo (cx, cy + size / 3 - head_r - 2);;
  lineTo (cx + body_w, cy + size / 3 - head_r - body_h);;
  lineTo (cx - body_w, cy + size / 3 - head_r - body_h);;
  closePath.

Definition CX : Z := ADVANCE_WIDTH / 2.
Definition CY : Z := (ASCENT + DESCENT) / 2.
Definition SZ : Z := 400.

(** ** The glyph dispatch *)

(** [int(n * math.cos(a))] and [int(n * math.sin(a))]. *)
Definition int_cos `{Math} (n : Z) (a : Float64.float) : Py.result Z :=
  int_of_scaled n (math_cos a).
Definition int_sin `{Math} (n : Z) (a : Float64.float) : Py.result Z :=
  int_of_scaled n (math_sin a).

(** One ray of [rad:sun]: the body of its [for i in range(8)] loop. *)
Definition sun_ray `{Math} (cx cy sz : Z) (i : Z) : Draw unit :=
  angle ← lift (ipi ← Float64.int_mul i math_pi; Float64.div_int ipi 4);
  dx1 ← lift (int_cos (sz / 3 + 20) angle);
  let x1 := cx + dx1 in
  dy1 ← lift (int_sin (sz / 3 + 20) angle);
  let y1 := cy + dy1 in
  dx2 ← lift (int_cos (sz / 2) angle);
  let x2 := cx + dx2 in
  dy2 ← lift (int_sin (sz / 2) angle);
  let y2 := cy + dy2 in
  moveTo (x1, y1);;
  lineTo (x2, y2);;
  endPath.

Definition draw_glyph `{Math} (glyph_name : string) : Draw unit :=
  let cx := CX in
  let cy := CY in
  let sz := SZ in
  (* -- Fixed glyphs (predicates) -- *)
  if String.eqb glyph_name "is-a" then
    triangle_up cx cy sz
  else if String.eqb glyph_name "part-of" then
    arc_left cx cy sz
  else if String.eqb glyph_name "has-a" then
    diamond cx cy sz
  else if String.eqb glyph_name "contains" then
    arc_right cx cy sz
  else if String.eqb glyph_name "parent-of" then
    arrow_down cx cy sz
  else if String.eqb glyph_name "child-of" then
    arrow_up cx cy sz
  else if String.eqb glyph_name "similar-to" then
    wave cx (cy + 40) sz;;
    wave cx (cy - 40) sz
  else if String.eqb glyph_name "causes" then
    arrow_right cx cy sz
  else if String.eqb glyph_name "precedes" then
    let half := sz / 2 in
    moveTo (cx + half / 2, cy + half);;
    lineTo (cx - half / 2, cy);;
    lineTo (cx + half / 2, cy - half);;
    endPath
  else if String.eqb glyph_name "located-in" then
    house cx cy sz
  else if String.eqb glyph_name "created-by" then
    let half := sz / 2 in
    moveTo (cx - half, cy - half);;
    lineTo (cx + half, cy + half);;
    endPath;;
    triangle_up (cx + half - 30) (cy + half - 30) 60
  else if String.eqb glyph_name "depends-on" then
    arrow_right cx cy sz
  else if String.eqb glyph_name "opposes" then
    let t := sz / 8 in
    let half := sz / 2 in
    box_rect (cx - half) (cy + half - t) sz t;;
    box_rect (cx - t) (cy - half) (2 * t) sz
  else if String.eqb glyph_name "enables" then
    arrow_right cx cy sz
  else if String.eqb glyph_name "knows" then
    circle cx cy (sz / 2);;
    circle cx cy (sz / 4)
  (* -- Type determinatives -- *)
  else if String.eqb glyph_name "type:person" then
    person cx cy sz
  else if String.eqb glyph_name "type:place" then
    house cx cy sz
  else if String.eqb glyph_name "type:thing" then
    box_rect (cx - sz / 3) (cy - sz / 3) (sz * 2 / 3) (sz * 2 / 3)
  else if String.eqb glyph_name "type:concept" then
    circle cx (cy + 40) (sz / 3);;
    box_rect (cx - 30) (cy - sz / 4) 60 40
  else if String.eqb glyph_name "type:event" then
    let half := sz / 2 in
    moveTo (cx, cy + half);;
    lineTo (cx + half / 3, cy);;
    lineTo (cx - half / 6, cy);;
    lineTo (cx, cy - half);;
    lineTo (cx - half / 3, cy);;
    lineTo (cx + half / 6, cy);;
    closePath
  else if String.eqb glyph_name "type:quantity" then
    let t := sz / 10 in
    let third := sz / 3 in
    box_rect (cx - third) (cy - sz / 2) t sz;;
    box_rect (cx + third - t) (cy - sz / 2) t sz;;
    box_rect (cx - sz / 2) (cy - third + t) sz t;;
    box_rect (cx - sz / 2) (cy + third - t) sz t
  else if String.eqb glyph_name "type:time" then
    circle cx cy (sz / 2);;
    moveTo (cx, cy);;
    lineTo (cx, cy + sz / 3);;
    endPath;;
    moveTo (cx, cy);;
    lineTo (cx + sz / 4, cy);;
    endPath
  else if String.eqb glyph_name "type:group" then
    let r := sz / 6 in
    circle (cx - r * 2) cy r;;
    circle cx cy r;;
    circle (cx + r * 2) cy r
  else if String.eqb glyph_name "type:process" then
    circle cx cy (sz / 3)
  else if String.eqb glyph_name "type:property" then
    let t := sz / 10 in
    for_each [(- sz) / 4; 0; sz / 4] (fun dy =>
      box_rect (cx - sz / 3) (cy + dy - t / 2) (sz * 2 / 3) t)
  (* -- Provenance -- *)
  else if String.eqb glyph_name "prov:asserted" then
    diamond cx cy sz
  else if String.eqb glyph_name "prov:inferred" then
    diamond cx cy sz
  else if String.eqb glyph_name "prov:fused" then
    circle cx cy (sz / 2);;
    cross cx cy (sz / 2)
  else if String.eqb glyph_name "prov:discovered" then
    star_5 cx cy (sz / 2) (sz / 4)
  else if String.eqb glyph_name "prov:gap" then
    circle cx (cy + sz / 4) (sz / 4);;
    dot_glyph cx (cy - sz / 3) sz
  (* -- Structural -- *)
  else if String.eqb glyph_name "struct:triple" then
    let half := sz / 2 in
    moveTo (cx + half / 2, cy + half);;
    lineTo (cx - half / 2, cy);;
    lineTo (cx + half / 2, cy - half);;
    endPath
  else if String.eqb glyph_name "struct:end" then
    let half := sz / 2 in
    moveTo (cx - half / 2, cy + half);;
    lineTo (cx + half / 2, cy);;
    lineTo (cx - half / 2, cy - half);;
    endPath
  else if String.eqb glyph_name "struct:chain" then
    let t := sz / 10 in
    box_rect (cx - sz / 2) (cy - t / 2) sz t
  else if String.eqb glyph_name "struct:branch" then
    let t := sz / 10 in
    let half := sz / 2 in
    box_rect (cx - t) (cy - half) (2 * t) sz;;
    box_rect cx (cy - t / 2) half t
  else if String.eqb glyph_name "struct:confidence" then
    circle cx cy (sz / 3)
  (* -- Radicals (beings) -- *)
  else if String.eqb glyph_name "rad:eye" then
    let half := sz / 2 in
    let k := half / 2 in
    moveTo (cx - half, cy);;
    curveTo (cx - k, cy + k) (cx + k, cy + k) (cx + half, cy);;
    curveTo (cx + k, cy - k) (cx - k, cy - k) (cx - half, cy);;
    closePath;;
    circle cx cy (sz / 8)
  else if String.eqb glyph_name "rad:bird" then
    let half := sz / 2 in
    moveTo (cx - half, cy);;
    curveTo (cx - half / 2, cy + half) (cx, cy + half / 2) (cx, cy);;
    endPath;;
    moveTo (cx, cy);;
    curveTo (cx, cy + half / 2) (cx + half / 2, cy + half) (cx + half, cy);;
    endPath
  else if String.eqb glyph_name "rad:serpent" then
    wave cx cy sz
  else if String.eqb glyph_name "rad:fish" then
    circle (cx - 20) cy (sz / 3);;
    let half := sz / 3 in
    moveTo (cx + half, cy);;
    lineTo (cx + half + half / 2, cy + half / 2);;
    lineTo (cx + half + half / 2, cy - half / 2);;
    closePath
  else if String.eqb glyph_name "rad:hand" then
    box_rect (cx - sz / 4) (cy - sz / 4) (sz / 2) (sz / 3);;
    for_each (range 5) (fun i =>
      let x := cx - sz / 4 + i * (sz / 2) / 4 in
      moveTo (x, cy + sz / 12);;
      lineTo (x, cy + sz / 3);;
      endPath)
  else if String.eqb glyph_name "rad:foot" then
    circle cx (cy - 30) (sz / 3);;
    box_rect (cx - sz / 6) (cy - sz / 3) (sz / 3) (sz / 4)
  else if String.eqb glyph_name "rad:face" then
    circle cx cy (sz / 2);;
    circle (cx - sz / 6) (cy + sz / 8) (sz / 16);;
    circle (cx + sz / 6) (cy + sz / 8) (sz / 16)
  else if String.eqb glyph_name "rad:figure" then
    person cx cy sz
  (* -- Radicals (nature) -- *)
  else if String.eqb glyph_name "rad:sun" then
    circle cx cy (sz / 3);;
    for_each (range 8) (sun_ray cx cy sz)
  else if String.eqb glyph_name "rad:moon" then
    circle cx cy (sz / 2)
  else if String.eqb glyph_name "rad:water" then
    wave cx (cy + 40) sz;;
    wave cx cy sz;;
    wave cx (cy - 40) sz
  else if String.eqb glyph_name "rad:mountain" then
    triangle_up (cx - sz / 4) cy (sz / 2);;
    triangle_up (cx + sz / 4) (cy - sz / 8) (sz * 3 / 4)
  else if String.eqb glyph_name "rad:tree" then
    triangle_up cx (cy + sz / 6) (sz / 2);;
    box_rect (cx - sz / 16) (cy - sz / 3) (sz / 8) (sz / 3)
  else if String.eqb glyph_name "rad:fire" then
    triangle_up cx cy sz
  else if String.eqb glyph_name "rad:wind" then
    for_each [-40; 0; 40] (fun dy => wave cx (cy + dy) sz)
  else if String.eqb glyph_name "rad:earth" then
    circle cx cy (sz / 2);;
    cross cx cy sz
  (* -- Radicals (structure) -- *)
  else if String.eqb glyph_name "rad:house" then
    house cx cy sz
  else if String.eqb glyph_name "rad:pillar" then
    pillar cx cy sz
  else if String.eqb glyph_name "rad:arch" then
    let half := sz / 2 in
    k ← lift (int_of_product arc_k half);
    moveTo (cx - half, cy - half);;
    lineTo (cx - half, cy);;
    curveTo (cx - half, cy + k) (cx - k, cy + half) (cx, cy + half);;
    curveTo (cx + k, cy + half) (cx + half, cy + k) (cx + half, cy);;
    lineTo (cx + half, cy - half);;
    endPath
  else if String.eqb glyph_name "rad:wall" then
    box_rect (cx - sz / 2) (cy - sz / 4) sz (sz / 2)
  else if String.eqb glyph_name "rad:gate" then
    let t := sz / 8 in
    let half := sz / 2 in
    box_rect (cx - half) (cy - half) t sz;;
    box_rect (cx + half - t) (cy - half) t sz;;
    box_rect (cx - half) (cy + half - t) sz t
  else if String.eqb glyph_name "rad:path" then
    let t := sz / 12 in
    box_rect (cx - sz / 2) (cy + t) sz t;;
    box_rect (cx - sz / 2) (cy - 2 * t) sz t
  else if String.eqb glyph_name "rad:bridge" then
    let half := sz / 2 in
    k ← lift (int_of_product arc_k half);
    moveTo (cx - half, cy);;
    curveTo (cx - half, cy + k) (cx - k, cy + half / 2) (cx, cy + half / 2);;
    curveTo (cx + k, cy + half / 2) (cx + half, cy + k) (cx + half, cy);;
    endPath;;
    let t := sz / 10 in
    box_rect (cx - half) (cy - half) t half;;
    box_rect (cx + half - t) (cy - half) t half
  else if String.eqb glyph_name "rad:tower" then
    circle cx cy (sz / 2)
  (* -- Radicals (abstract) -- *)
  else if String.eqb glyph_name "rad:ankh" then
    circle cx (cy + sz / 4) (sz / 5);;
    let t := sz / 10 in
    box_rect (cx - t) (cy - sz / 3) (2 * t) (sz / 2);;
    box_rect (cx - sz / 4) cy (sz / 2) t
  else if String.eqb glyph_name "rad:spiral" then
    circle cx cy (sz / 3);;
    moveTo (cx + sz / 3, cy);;
    curveTo (cx + sz / 2, cy + sz / 4) (cx + sz / 4, cy + sz / 2) (cx, cy + sz / 3);;
    endPath
  else if String.eqb glyph_name "rad:star" then
    star_5 cx cy (sz / 2) (sz / 4)
  else if String.eqb glyph_name "rad:arrow" then
    arrow_right cx cy sz
  else if String.eqb glyph_name "rad:loop" then
    let r := sz / 4 in
    circle (cx - r) cy r;;
    circle (cx + r) cy r
  else if String.eqb glyph_name "rad:cross" then
    cross cx cy sz
  else if String.eqb glyph_name "rad:wave" then
    wave cx cy sz
  else if String.eqb glyph_name "rad:dot" then
    dot_glyph cx cy sz
  else
    (* Fallback: small square *)
    box_rect (cx - 20) (cy - 20) 40 40.

(** ** The codepoint map *)

(** A dict display [{k1: v1, k2: v2, ...}]: the items are inserted from
    left to right, a later item replacing an earlier one with the same key. *)
Definition dict_display {V} (items : list (Z * V)) : gmap Z V :=
  fold_left (fun d kv => <[kv.1 := kv.2]> d) items ∅.

Definition GLYPH_MAP_display : list (Z * string) := [
  (* Fixed glyphs (35) *)
  (0xE000, "is-a");         (0xE001, "part-of");      (0xE002, "has-a");
  (0xE003, "contains");     (0xE004, "parent-of");    (0xE005, "child-of");
  (0xE006, "similar-to");   (0xE007, "causes");       (0xE008, "precedes");
  (0xE009, "located-in");   (0xE00A, "created-by");   (0xE00B, "depends-on");
  (0xE00C, "opposes");      (0xE00D, "enables");      (0xE00E, "knows");
  (0xE00F, "type:person");  (0xE010, "type:place");   (0xE011, "type:thing");
  (0xE012, "type:concept"); (0xE013, "type:event");   (0xE014, "type:quantity");
  (0xE015, "type:time");    (0xE016, "type:group");   (0xE017, "type:process");
  (0xE018, "type:property");
  (0xE019, "prov:asserted");   (0xE01A, "prov:inferred");
  (0xE01B, "prov:fused");      (0xE01C, "prov:discovered");
  (0xE01D, "prov:gap");
  (0xE01E, "struct:triple");   (0xE01F, "struct:end");
  (0xE020, "struct:chain");    (0xE021, "struct:branch");
  (0xE022, "struct:confidence");
  (* Radicals (32) *)
  (0xE100, "rad:eye");      (0xE101, "rad:bird");     (0xE102, "rad:serpent");
  (0xE103, "rad:fish");     (0xE104, "rad:hand");     (0xE105, "rad:foot");
  (0xE106, "rad:face");     (0xE107, "rad:figure");
  (0xE108, "rad:sun");      (0xE109, "rad:moon");     (0xE10A, "rad:water");
  (0xE10B, "rad:mountain"); (0xE10C, "rad:tree");     (0xE10D, "rad:fire");
  (0xE10E, "rad:wind");     (0xE10F, "rad:earth");
  (0xE110, "rad:house");    (0xE111, "rad:pillar");   (0xE112, "rad:arch");
  (0xE113, "rad:wall");     (0xE114, "rad:gate");     (0xE115, "rad:path");
  (0xE116, "rad:bridge");   (0xE117, "rad:tower");
  (0xE118, "rad:ankh");     (0xE119, "rad:spiral");   (0xE11A, "rad:star");
  (0xE11B, "rad:arrow");    (0xE11C, "rad:loop");     (0xE11D, "rad:cross");
  (0xE11E, "rad:wave");     (0xE11F, "rad:dot")
].

Definition GLYPH_MAP : gmap Z string := dict_display GLYPH_MAP_display.

(** [sorted(d.items())]: tuples compare by key first, then by value. *)
Definition item_le (a b : Z * string) : Prop :=
  a.1 < b.1 ∨ (a.1 = b.1 ∧ String.leb a.2 b.2 = true).

#[global] Instance item_le_dec : RelDecision item_le.
Proof. intros a b. unfold item_le. solve_decision. Defined.

Definition sorted_items (d : gmap Z string) : list (Z * string) :=
  merge_sort item_le (map_to_list d).

(** ** Glyph names: [f"uni{codepoint:04X}"] and [int(glyph_name[3:], 16)] *)

Definition hex_digit (d : Z) : ascii :=
  match String.get (Z.to_nat d) "0123456789ABCDEF" with
  | Some c => c
  | None => "0"%char
  end.

(** The upper-case hexadecimal digits of a natural number, most
    significant first; [fuel] bounds the number of digits. *)
Fixpoint hex_digits (fuel : nat) (n : Z) (acc : string) : string :=
  match fuel with
  | O => acc
  | S fuel' =>
      let acc' := String (hex_digit (n mod 16)) acc in
      if (n <? 16)%Z then acc' else hex_digits fuel' (n / 16) acc'
  end.

Definition hex_upper (n : Z) : string :=
  hex_digits (S (Z.to_nat (Z.log2 n))) n "".

Fixpoint zeros (k : nat) : string :=
  match k with
  | O => ""
  | S k' => String "0"%char (zeros k')
  end.

(** The format specification [04X]: upper-case hexadecimal, padded with
    zeros after the sign to a total width of 4. *)
Definition format_04X (n : Z) : string :=
  if (n <? 0)%Z then
    let digits := hex_upper (- n) in
    "-" +:+ zeros (3 - String.length digits) +:+ digits
  else
    let digits := hex_upper n in
    zeros (4 - String.length digits) +:+ digits.

Definition hex_value (c : ascii) : option Z :=
  let n := Z.of_N (N_of_ascii c) in
  if ((48 <=? n) && (n <=? 57))%Z then Some (n - 48)
  else if ((65 <=? n) && (n <=? 70))%Z then Some (n - 55)
  else if ((97 <=? n) && (n <=? 102))%Z then Some (n - 87)
  else None.

Fixpoint parse_hex (s : string) (acc : Z) : Py.result Z :=
  match s with
  | EmptyString => Ok acc
  | String c s' =>
      match hex_value c with
      | Some d => parse_hex s' (16 * acc + d)
      | None => Raise Py.ValueError
      end
  end.

(** [int(s, 16)] on a string of hexadecimal digits; an empty string or a
    character that is not a digit raises [ValueError]. (The interpreter
    also accepts a sign, a [0x] prefix, surrounding blanks and single
    underscores between digits; the build never produces such strings and
    they are rejected here.) *)
Definition int16 (s : string) : Py.result Z :=
  match s with
  | EmptyString => Raise Py.ValueError
  | _ => parse_hex s 0
  end.

(** [s[n:]] *)
Fixpoint slice_from (n : nat) (s : string) : string :=
  match n, s with
  | O, _ => s
  | S n', String _ s' => slice_from n' s'
  | S _, EmptyString => EmptyString
  end.

(** ** Font assembly *)

(** What [pen.getCharString()] hands over: the advance width and the
    outline program. Its binary encoding belongs to the font library. *)
Record CharString : Type := mkCharString {
  cs_width : Z;
  cs_program : list PathCommand
}.

Definition getCharString (pen : T2Pen) : CharString :=
  mkCharString (pen_width pen) (pen_program pen).

(** The inputs the script gives to the font builder. *)
Record Font : Type := mkFont {
  unitsPerEm : Z;
  glyphOrder : list string;
  characterMap : gmap Z string;
  charStrings : gmap string CharString;
  defaultWidthX : Z;
  hmtx : gmap string (Z * Z);
  hhea_ascent : Z;
  hhea_descent : Z
}.

(** The first loop of [build_font]: glyph names and character map. *)
Definition name_glyphs (items : list (Z * string))
    (glyph_names : list string) (cmap : gmap Z string)
    : list string * gmap Z string :=
  fold_left
    (fun (acc : list string * gmap Z string) (item : Z * string) =>
       let codepoint := item.1 in
       let glyph_name := "uni" +:+ format_04X codepoint in
       (acc.1 ++ [glyph_name], <[codepoint := glyph_name]> acc.2))
    items (glyph_names, cmap).

(** The body of the drawing loop: a fresh pen per glyph. *)
Definition draw_named `{Math} (glyph_name : string) : Py.result CharString :=
  let pen := mkPen ADVANCE_WIDTH [] in
  let run :=
    if String.eqb glyph_name ".notdef" then
      box_rect 100 0 400 700
    else if String.eqb glyph_name "space" then
      mret tt
    else
      cp ← lift (int16 (slice_from 3 glyph_name));
      let draw_name := default "" (GLYPH_MAP !! cp) in
      draw_glyph draw_name
  in
  let outcome := run pen in
  outcome.1;; Ok (getCharString outcome.2).

Fixpoint draw_all `{Math} (glyph_names : list string)
    (glyph_dict : gmap string CharString) : Py.result (gmap string CharString) :=
  match glyph_names with
  | [] => Ok glyph_dict
  | glyph_name :: rest =>
      cs ← draw_named glyph_name;
      draw_all rest (<[glyph_name := cs]> glyph_dict)
  end.

(** [build_font] up to the values it hands to the font builder: the glyph
    order, the character map, the charstrings and the metrics. The calls
    into [FontBuilder] ([setupGlyphOrder] ... [setupPost]), [os.makedirs]
    and [fb.font.save] belong to the library and the file system and are
    not modelled; [build_font = Ok font] says that the two loops completed
    with these values, not that a file was written. *)
Definition build_font `{Math} : Py.result Font :=
  let glyph_names := [".notdef"; "space"] in
  let cmap : gmap Z string := {[ 0x20 := "space" ]} in
  let named := name_glyphs (sorted_items GLYPH_MAP) glyph_names cmap in
  let glyph_names := named.1 in
  let cmap := named.2 in
  glyph_dict ← draw_all glyph_names ∅;
  let metrics : gmap string (Z * Z) :=
    fold_left (fun m glyph_name => <[glyph_name := (ADVANCE_WIDTH, 0)]> m)
      glyph_names ∅ in
  Ok {| unitsPerEm := UPM;
        glyphOrder := glyph_names;
        characterMap := cmap;
        charStrings := glyph_dict;
        defaultWidthX := ADVANCE_WIDTH;
        hmtx := metrics;
        hhea_ascent := ASCENT;
        hhea_descent := DESCENT |}.

(** ** Subpaths

    A path program is a sequence of subpaths; each starts with a [MoveTo],
    continues with line and curve segments and ends with [ClosePath]
    (a closed, filled contour) or [EndPath] (an open stroke). *)

Inductive Segment : Type :=
| Line (p : Point)
| Curve (c1 c2 p : Point).

Record Subpath : Type := mkSubpath {
  sp_start : Point;
  sp_segments : list Segment;
  sp_closed : bool
}.

(** Splits a program into its subpaths; [None] when a segment or a
    terminator comes before any [MoveTo], a [MoveTo] comes inside an
    unterminated subpath, or the last subpath is not terminated. *)
Fixpoint split_subpaths (cmds : list PathCommand)
    (cur : option (Point * list Segment)) : option (list Subpath) :=
  match cmds, cur with
  | [], None => Some []
  | [], Some _ => None
  | MoveTo p :: rest, None => split_subpaths rest (Some (p, []))
  | MoveTo _ :: _, Some _ => None
  | LineTo p :: rest, Some (s, segs) =>
      split_subpaths rest (Some (s, segs ++ [Line p]))
  | CurveTo c1 c2 p :: rest, Some (s, segs) =>
      split_subpaths rest (Some (s, segs ++ [Curve c1 c2 p]))
  | ClosePath :: rest, Some (s, segs) =>
      cons (mkSubpath s segs true) <$> split_subpaths rest None
  | EndPath :: rest, Some (s, segs) =>
      cons (mkSubpath s segs false) <$> split_subpaths rest None
  | _ :: _, None => None
  end.

Definition subpaths (cmds : list PathCommand) : option (list Subpath) :=
  split_subpaths cmds None.

(** Where a segment ends. *)
Definition seg_end (s : Segment) : Point :=
  match s with
  | Line p => p
  | Curve _ _ p => p
  end.

(** ** A reference implementation of the [math] interface

    Cosine and sine by their Taylor series, evaluated in 160-bit binary
    fixed point and rounded to binary64; [pi] is the binary64 value
    0x1.921fb54442d18p+1. It serves to run the script on concrete inputs. *)

Module RefMath.

Definition bits : Z := 160.

Definition to_fixed (x : Float64.float) : Z :=
  match x with
  | S754_finite s m e =>
      let v := Z.shiftl (Zpos m) (e + bits) in
      if s then - v else v
  | _ => 0
  end.

Definition of_fixed (v : Z) : Float64.float :=
  binary_normalize Float64.prec Float64.emax v (- bits) false.

(** [series n k term x2 acc]: adds [n] further terms, each obtained from
    the previous one by the factor [- x2 / (k * (k + 1))]. *)
Fixpoint series (n : nat) (k term x2 acc : Z) : Z :=
  match n with
  | O => acc
  | S n' =>
      let term' := - (Z.shiftr (term * x2) bits / (k * (k + 1))) in
      series n' (k + 2) term' x2 (acc + term')
  end.

Definition cos (x : Float64.float) : Float64.float :=
  let fx := to_fixed x in
  let x2 := Z.shiftr (fx * fx) bits in
  let one := Z.shiftl 1 bits in
  of_fixed (series 80 1 one x2 one).

Definition sin (x : Float64.float) : Float64.float :=
  let fx := to_fixed x in
  let x2 := Z.shiftr (fx * fx) bits in
  of_fixed (series 80 2 fx x2 fx).

Definition pi : Float64.float := S754_finite false 7074237752028440 (-51).

Definition reference : Math :=
  {| math_pi := pi; math_cos := cos; math_sin := sin |}.

End RefMath.

(** * Vocabulary of the properties *)

(** ** Outlines

    The command sequences the straight-line primitives send to the pen,
    as functions of their arguments. *)

(** [triangle_up(pen, cx, cy, size)] *)
Definition triangle_up_path (cx cy size : Z) : list PathCommand :=
  [MoveTo (cx, cy + size / 2);
   LineTo (cx + size / 2, cy - size / 2);
   LineTo (cx - size / 2, cy - size / 2);
   ClosePath].

(** [box_rect(pen, x, y, w, h)] *)
Definition box_rect_path (x y w h : Z) : list PathCommand :=
  [MoveTo (x, y); LineTo (x + w, y); LineTo (x + w, y + h); LineTo (x, y + h);
   ClosePath].

(** [wave(pen, cx, cy, size)] *)
Definition wave_path (cx cy size : Z) : list PathCommand :=
  [MoveTo (cx - size / 2, cy);
   CurveTo (cx - size / 4, cy + size / 4) (cx, cy + size / 4) (cx, cy);
   CurveTo (cx, cy - size / 4) (cx + size / 4, cy - size / 4) (cx + size / 2, cy);
   EndPath].

(** [circle(pen, cx, cy, r)] once its control offset [kr] is known. *)
Definition circle_path (cx cy r kr : Z) : list PathCommand :=
  [MoveTo (cx, cy + r);
   CurveTo (cx + kr, cy + r) (cx + r, cy + kr) (cx + r, cy);
   CurveTo (cx + r, cy - kr) (cx + kr, cy - r) (cx, cy - r);
   CurveTo (cx - kr, cy - r) (cx - r, cy - kr) (cx - r, cy);
   CurveTo (cx - r, cy + kr) (cx - kr, cy + r) (cx, cy + r);
   ClosePath].

(** [person(pen, cx, cy, size)] once the control offset [kr] of its head
    is known: the head, a circle of radius [size // 6] around
    [(cx, cy + size // 3)], then the body triangle. *)
Definition person_path (cx cy size kr : Z) : list PathCommand :=
  circle_path cx (cy + size / 3) (size / 6) kr ++
  [MoveTo (cx, cy + size / 3 - size / 6 - 2);
   LineTo (cx + size / 3, cy + size / 3 - size / 6 - size / 2);
   LineTo (cx - size / 3, cy + size / 3 - size / 6 - size / 2);
   ClosePath].

(** ** Codepoint blocks and registered names *)

(** The two private-use blocks of the module docstring: U+E000-U+E022 and
    U+E100-U+E11F. *)
Definition in_fixed_block (c : Z) : Prop := 0xE000 <= c <= 0xE022.
Definition in_radical_block (c : Z) : Prop := 0xE100 <= c <= 0xE11F.

#[global] Instance in_fixed_block_dec c : Decision (in_fixed_block c).
Proof. unfold in_fixed_block. solve_decision. Defined.
#[global] Instance in_radical_block_dec c : Decision (in_radical_block c).
Proof. unfold in_radical_block. solve_decision. Defined.

(** The codepoints of the map. *)
Definition codepoints : list Z := (map_to_list GLYPH_MAP).*1.

(** The string literals of the [if]/[elif] chain of [draw_glyph], in the
    order of the chain. *)
Definition registered_names : list string := [
  "is-a"; "part-of"; "has-a"; "contains"; "parent-of"; "child-of";
  "similar-to"; "causes"; "precedes"; "located-in"; "created-by";
  "depends-on"; "opposes"; "enables"; "knows";
  "type:person"; "type:place"; "type:thing"; "type:concept"; "type:event";
  "type:quantity"; "type:time"; "type:group"; "type:process";
  "type:property";
  "prov:asserted"; "prov:inferred"; "prov:fused"; "prov:discovered";
  "prov:gap";
  "struct:triple"; "struct:end"; "struct:chain"; "struct:branch";
  "struct:confidence";
  "rad:eye"; "rad:bird"; "rad:serpent"; "rad:fish"; "rad:hand"; "rad:foot";
  "rad:face"; "rad:figure";
  "rad:sun"; "rad:moon"; "rad:water"; "rad:mountain"; "rad:tree";
  "rad:fire"; "rad:wind"; "rad:earth";
  "rad:house"; "rad:pillar"; "rad:arch"; "rad:wall"; "rad:gate";
  "rad:path"; "rad:bridge"; "rad:tower";
  "rad:ankh"; "rad:spiral"; "rad:star"; "rad:arrow"; "rad:loop";
  "rad:cross"; "rad:wave"; "rad:dot"
].

(** The fallback outline: the commands of [box_rect(cx - 20, cy - 20, 40, 40)]. *)
Definition fallback_square : list PathCommand :=
  [MoveTo (CX - 20, CY - 20); LineTo (CX + 20, CY - 20);
   LineTo (CX + 20, CY + 20); LineTo (CX - 20, CY + 20); ClosePath].

(** The outline [glyph_name] leaves on a fresh pen of the advance width. *)
Definition outline_of `{Math} (glyph_name : string) : list PathCommand :=
  pen_program (draw_glyph glyph_name (mkPen ADVANCE_WIDTH [])).2.

(** ** Numbers

    Charstring operands are 16-bit integers; radii and half sizes of
    magnitude up to [grid_bound] cover them. *)
Definition grid_bound : Z := 32768.

(** [int(k * r)] returns the quotient of [num * r] by [den], truncated
    toward zero. *)
Definition offset_agrees (k : Float64.float) (num den r : Z) : bool :=
  match int_of_product k r with
  | Py.Ok v => Z.eqb v (Z.quot (num * r) den)
  | Py.Raise _ => false
  end.

(** Checks [r], [-r], [r + 1], [-(r + 1)], ... for [n] steps. *)
Fixpoint agrees_from (check : Z -> bool) (n : nat) (r : Z) : bool :=
  match n with
  | O => true
  | S n' =>
      if check r then
        if check (- r) then agrees_from check n' (r + 1) else false
      else false
  end.

(** [n] is an integer nearest to the rational [num / den] ([den > 0]),
    whatever the rule for ties. *)
Definition nearest_to (n num den : Z) : Prop :=
  2 * Z.abs (n * den - num) <= den.

(** [arc_left(pen, cx, cy, size)] with [half = size // 2] and its control
    offset [k]. *)
Definition arc_left_path (cx cy half k : Z) : list PathCommand :=
  [MoveTo (cx + half, cy + half);
   CurveTo (cx + half - k, cy + half) (cx, cy + k) (cx, cy);
   CurveTo (cx, cy - k) (cx + half - k, cy - half) (cx + half, cy - half);
   EndPath].

(** [arc_right(pen, cx, cy, size)], likewise. *)
Definition arc_right_path (cx cy half k : Z) : list PathCommand :=
  [MoveTo (cx - half, cy + half);
   CurveTo (cx - half + k, cy + half) (cx, cy + k) (cx, cy);
   CurveTo (cx, cy - k) (cx - half + k, cy - half) (cx - half, cy - half);
   EndPath].

(** ** Drawing outcomes *)

(** [d] returns normally on [pen] and emits a non-empty sequence of
    subpaths, each of them closed ([closed = true]) or each of them open
    ([closed = false]). *)
Definition draws (closed : bool) (d : Draw unit) (pen : T2Pen) : Prop :=
  exists cmds sps,
    d pen = (Ok tt, emit pen cmds) /\
    subpaths cmds = Some sps /\
    sps <> [] /\
    Forall (fun sp => sp_closed sp = closed) sps.

(** [d] raises on [pen] without having emitted anything. *)
Definition raises_untouched (d : Draw unit) (pen : T2Pen) : Prop :=
  exists e, d pen = (Raise e, pen).

(** The glyph name of a codepoint. *)
Definition uni_name (codepoint : Z) : string := "uni" +:+ format_04X codepoint.

(** ** Invariants of drawing routines *)

(** [d], run on a pen whose current subpath is [cur] ([None] between
    subpaths), has one outcome and one command sequence whatever the pen
    holds, only appends to the pen, and leaves every subpath it touches
    terminated, also when it raises. *)
Definition safe {A} (cur : option (Point * list Segment)) (d : Draw A) : Prop :=
  exists (r : Py.result A) (cmds : list PathCommand),
    (forall pen, d pen = (r, emit pen cmds)) /\
    is_Some (split_subpaths cmds cur).

(** The points of a command, control points included. *)
Definition cmd_points (c : PathCommand) : list Point :=
  match c with
  | MoveTo p => [p]
  | LineTo p => [p]
  | CurveTo c1 c2 p => [c1; c2; p]
  | ClosePath => []
  | EndPath => []
  end.

(** The usable area of the cell: the margin [M] on both sides, and from
    the baseline up to [H]. *)
Definition in_usable_area (p : Point) : bool :=
  (M <=? p.1) && (p.1 <=? M + W) && (0 <=? p.2) && (p.2 <=? H).

(** The glyphs whose drawing calls [math.cos] and [math.sin]. *)
Definition trig_names : list string := ["prov:discovered"; "rad:sun"; "rad:star"].

(** Drawing [glyph_name] on a fresh pen returns normally and stays in the
    usable area. *)
Definition fits_cell `{Math} (glyph_name : string) : bool :=
  match draw_glyph glyph_name (mkPen ADVANCE_WIDTH []) with
  | (Py.Ok _, pen) =>
      forallb (fun c => forallb in_usable_area (cmd_points c)) (pen_program pen)
  | (Py.Raise _, _) => false
  end.

(** ** Moving outlines *)

(** Applies a map of the plane to every point of a command. *)
Definition map_cmd (g : Point -> Point) (c : PathCommand) : PathCommand :=
  match c with
  | MoveTo p => MoveTo (g p)
  | LineTo p => LineTo (g p)
  | CurveTo c1 c2 p => CurveTo (g c1) (g c2) (g p)
  | ClosePath => ClosePath
  | EndPath => EndPath
  end.

(** [d'] does what [d] does, with every point moved by [g]: the same
    outcome, and the commands of [d] mapped through [g], on every pen. *)
Definition moved {A} (g : Point -> Point) (d d' : Draw A) : Prop :=
  exists (r : Py.result A) (cmds : list PathCommand),
    (forall pen, d pen = (r, emit pen cmds)) /\
    (forall pen, d' pen = (r, emit pen (map_cmd g <$> cmds))).

Definition translate (dx dy : Z) (p : Point) : Point := (p.1 + dx, p.2 + dy).

(** Reflection in the horizontal line through [cy], and in the vertical
    line through [cx]. *)
Definition flip_vertical (cy : Z) (p : Point) : Point := (p.1, 2 * cy - p.2).
Definition flip_horizontal (cx : Z) (p : Point) : Point := (2 * cx - p.1, p.2).

(** * Properties *)

(** ** The pen *)

Lemma emit_emit (pen : T2Pen) (a b : list PathCommand) :
  emit (emit pen a) b = emit pen (a ++ b).
Proof. unfold emit; simpl. by rewrite <- app_assoc. Qed.

Lemma emit_nil (pen : T2Pen) : emit pen [] = pen.
Proof. destruct pen; unfold emit; simpl. by rewrite app_nil_r. Qed.

Lemma emit_inj (pen : T2Pen) (a b : list PathCommand) :
  emit pen a = emit pen b -> a = b.
Proof. unfold emit. intros [= E]. by apply app_inv_head in E. Qed.

Lemma emit_program (pen : T2Pen) (a : list PathCommand) :
  pen_program (emit pen a) = pen_program pen ++ a.
Proof. reflexivity. Qed.

(** Runs a straight-line drawing routine on a symbolic pen: unfolds the
    sequencing and gathers the commands into one [emit]. *)
Ltac run_pen :=
  cbv [mbind mret Draw_bind Draw_ret bind ret lift
       moveTo lineTo curveTo closePath endPath for_each];
  rewrite ?emit_emit; cbn [app].

(** ** What each straight-line primitive emits *)

Lemma triangle_up_run cx cy size pen :
  triangle_up cx cy size pen = (Ok tt, emit pen (triangle_up_path cx cy size)).
Proof. unfold triangle_up. run_pen. reflexivity. Qed.

Lemma triangle_down_run cx cy size pen :
  triangle_down cx cy size pen =
    (Ok tt, emit pen [MoveTo (cx, cy - size / 2);
                      LineTo (cx + size / 2, cy + size / 2);
                      LineTo (cx - size / 2, cy + size / 2);
                      ClosePath]).
Proof. unfold triangle_down. run_pen. reflexivity. Qed.

Lemma diamond_run cx cy size pen :
  diamond cx cy size pen =
    (Ok tt, emit pen [MoveTo (cx, cy + size / 2);
                      LineTo (cx + size / 2, cy);
                      LineTo (cx, cy - size / 2);
                      LineTo (cx - size / 2, cy);
                      ClosePath]).
Proof. unfold diamond. run_pen. reflexivity. Qed.

Lemma box_rect_run x y w h pen :
  box_rect x y w h pen = (Ok tt, emit pen (box_rect_path x y w h)).
Proof. unfold box_rect. run_pen. reflexivity. Qed.

Lemma cross_run cx cy size pen :
  cross cx cy size pen =
    (Ok tt, emit pen
       (box_rect_path (cx - size / 2) (cy - size / 6) size (2 * (size / 6)) ++
        box_rect_path (cx - size / 6) (cy - size / 2) (2 * (size / 6)) size)).
Proof. unfold cross, box_rect. run_pen. reflexivity. Qed.

Lemma wave_run cx cy size pen :
  wave cx cy size pen = (Ok tt, emit pen (wave_path cx cy size)).
Proof. unfold wave. run_pen. reflexivity. Qed.

Lemma house_run cx cy size pen :
  house cx cy size pen =
    (Ok tt, emit pen
       (box_rect_path (cx - size / 2 + size / 4) (cy - size / 2) (size / 2) (size / 2) ++
        triangle_up_path cx (cy + size / 4) (size / 2))).
Proof. unfold house, box_rect, triangle_up. run_pen. reflexivity. Qed.

(** A circle draws once its control offset [kr = int(k * r)] is computed,
    and raises before touching the pen when that conversion raises. *)
Lemma circle_run_ok cx cy r kr pen :
  int_of_product circle_k r = Ok kr ->
  circle cx cy r pen = (Ok tt, emit pen (circle_path cx cy r kr)).
Proof.
  intros E. unfold circle. cbv [mbind Draw_bind bind lift]. rewrite E.
  run_pen. reflexivity.
Qed.

Lemma circle_run_raise cx cy r e pen :
  int_of_product circle_k r = Raise e ->
  circle cx cy r pen = (Raise e, pen).
Proof.
  intros E. unfold circle. cbv [mbind Draw_bind bind lift]. by rewrite E.
Qed.

(** ** C1: the codepoint map *)

Lemma GLYPH_MAP_lookup_items c name :
  GLYPH_MAP !! c = Some name <-> (c, name) ∈ map_to_list GLYPH_MAP.
Proof. by rewrite elem_of_map_to_list. Qed.

Lemma GLYPH_MAP_items_sorted :
  sorted_items GLYPH_MAP = GLYPH_MAP_display.
Proof. vm_compute. reflexivity. Qed.

Lemma GLYPH_MAP_items_perm : map_to_list GLYPH_MAP ≡ₚ GLYPH_MAP_display.
Proof.
  rewrite <- GLYPH_MAP_items_sorted. unfold sorted_items.
  symmetry. apply merge_sort_Permutation.
Qed.

(** C1. The codepoint map has exactly 67 entries, written with 67 distinct
    codepoints; 35 of its codepoints lie in [0xE000, 0xE022], 32 lie in
    [0xE100, 0xE11F], none lies outside the two ranges, and distinct
    codepoints are mapped to distinct glyph identifiers. *)
Theorem C1_codepoint_map_coverage :
  size GLYPH_MAP = 67%nat /\
  length GLYPH_MAP_display = 67%nat /\
  NoDup (GLYPH_MAP_display.*1) /\
  length (filter in_fixed_block codepoints) = 35%nat /\
  length (filter in_radical_block codepoints) = 32%nat /\
  (forall c name, GLYPH_MAP !! c = Some name ->
     in_fixed_block c \/ in_radical_block c) /\
  (forall c1 c2 name,
     GLYPH_MAP !! c1 = Some name -> GLYPH_MAP !! c2 = Some name -> c1 = c2).
Proof.
  split; [by vm_compute|]. split; [reflexivity|].
  split; [apply (bool_decide_unpack _); by vm_compute|].
  split; [by vm_compute|]. split; [by vm_compute|].
  assert (Hin : forall c name, GLYPH_MAP !! c = Some name ->
                  (c, name) ∈ GLYPH_MAP_display).
  { intros c name Hc. rewrite <- GLYPH_MAP_items_perm.
    by apply GLYPH_MAP_lookup_items. }
  split.
  - intros c name Hc%Hin. revert c name Hc.
    assert (Hall : Forall (fun kv : Z * string =>
                     in_fixed_block kv.1 \/ in_radical_block kv.1)
                     GLYPH_MAP_display).
    { apply (bool_decide_unpack _). by vm_compute. }
    intros c name Hc. rewrite Forall_forall in Hall. exact (Hall _ Hc).
  - intros c1 c2 name H1%Hin H2%Hin.
    assert (Hnd : NoDup (GLYPH_MAP_display.*2)).
    { apply (bool_decide_unpack _). by vm_compute. }
    apply list_elem_of_lookup in H1 as [i Hi], H2 as [j Hj].
    assert (i = j) as ->.
    { eapply NoDup_lookup; [exact Hnd| |];
        rewrite list_lookup_fmap; [rewrite Hi|rewrite Hj]; reflexivity. }
    congruence.
Qed.

(** ** The registry: the names the dispatch compares against *)

(** The registry has 67 distinct names, and they are the identifiers of
    the codepoint map, in codepoint order. *)
Lemma registered_names_count :
  length registered_names = 67%nat /\ NoDup registered_names.
Proof. split; [reflexivity|]. apply (bool_decide_unpack _). by vm_compute. Qed.

Lemma registered_names_map : registered_names = GLYPH_MAP_display.*2.
Proof. reflexivity. Qed.

Section Dispatch.
Context `{Math}.

Lemma draw_glyph_unregistered (glyph_name : string) (pen : T2Pen) :
  glyph_name ∉ registered_names ->
  draw_glyph glyph_name pen = (Ok tt, emit pen fallback_square).
Proof.
  intros Hn. unfold registered_names in Hn.
  repeat (apply not_elem_of_cons in Hn as [?%String.eqb_neq Hn]).
  unfold draw_glyph.
  repeat match goal with
         | E : String.eqb glyph_name _ = false |- _ => rewrite E; clear E
         end.
  apply box_rect_run.
Qed.

(** C6. Codepoint 0xE000 resolves to [is-a]; the upward triangle emits one
    closed subpath through (cx, cy+half), (cx+half, cy-half),
    (cx-half, cy-half) with half = size // 2, in that order; and drawing
    [is-a] emits exactly that triangle at the cell center with the nominal
    size. *)
Theorem C6_is_a_triangle :
  GLYPH_MAP !! 0xE000 = Some "is-a" /\
  (forall cx cy size pen,
     let half := size / 2 in
     triangle_up cx cy size pen =
       (Ok tt, emit pen [MoveTo (cx, cy + half); LineTo (cx + half, cy - half);
                         LineTo (cx - half, cy - half); ClosePath]) /\
     subpaths [MoveTo (cx, cy + half); LineTo (cx + half, cy - half);
               LineTo (cx - half, cy - half); ClosePath] =
       Some [mkSubpath (cx, cy + half)
               [Line (cx + half, cy - half); Line (cx - half, cy - half)] true]) /\
  (forall pen, draw_glyph "is-a" pen = triangle_up CX CY SZ pen) /\
  (forall pen,
     draw_glyph "is-a" pen =
       (Ok tt, emit pen [MoveTo (300, 500); LineTo (500, 100); LineTo (100, 100);
                         ClosePath])).
Proof.
  split; [by vm_compute|]. split; [|split].
  - intros cx cy size pen half. split; [apply triangle_up_run | reflexivity].
  - reflexivity.
  - intros pen. change (draw_glyph "is-a" pen) with (triangle_up CX CY SZ pen).
    rewrite triangle_up_run. reflexivity.
Qed.

(** C7. Codepoint 0xE009 resolves to [located-in], drawn as a house: two
    closed subpaths, first the rectangle body, then the upward triangle
    roof, whose center is size // 4 above the cell center. *)
Theorem C7_located_in_house :
  GLYPH_MAP !! 0xE009 = Some "located-in" /\
  (forall pen, draw_glyph "located-in" pen = house CX CY SZ pen) /\
  (forall cx cy size pen,
     let half := size / 2 in
     let qtr := size / 4 in
     house cx cy size pen =
       (box_rect (cx - half + qtr) (cy - half) half half;;
        triangle_up cx (cy + qtr) half) pen /\
     house cx cy size pen =
       (Ok tt, emit pen (box_rect_path (cx - half + qtr) (cy - half) half half ++
                         triangle_up_path cx (cy + qtr) half)) /\
     subpaths (box_rect_path (cx - half + qtr) (cy - half) half half ++
               triangle_up_path cx (cy + qtr) half) =
       Some [mkSubpath (cx - half + qtr, cy - half)
               [Line (cx - half + qtr + half, cy - half);
                Line (cx - half + qtr + half, cy - half + half);
                Line (cx - half + qtr, cy - half + half)] true;
             mkSubpath (cx, cy + qtr + half / 2)
               [Line (cx + half / 2, cy + qtr - half / 2);
                Line (cx - half / 2, cy + qtr - half / 2)] true]) /\
  (forall pen,
     draw_glyph "located-in" pen =
       (Ok tt, emit pen [MoveTo (200, 100); LineTo (400, 100); LineTo (400, 300);
                         LineTo (200, 300); ClosePath;
                         MoveTo (300, 500); LineTo (400, 300); LineTo (200, 300);
                         ClosePath])).
Proof.
  split; [by vm_compute|]. split; [reflexivity|]. split.
  - intros cx cy size pen half qtr.
    split; [reflexivity|]. split; [apply house_run | reflexivity].
  - intros pen.
    change (draw_glyph "located-in" pen) with (house CX CY SZ pen).
    rewrite house_run. reflexivity.
Qed.

End Dispatch.

(** ** Unregistered names and shared outlines *)

Section Fallback.
Context `{Math}.

(** C3. For a name outside the registry the dispatch emits the fallback
    and nothing else: one closed square of side 40 around the cell center,
    the rectangle from (cx - 20, cy - 20) with width 40 and height 40. *)
Theorem C3_unregistered_draws_square (glyph_name : string) (pen : T2Pen) :
  glyph_name ∉ registered_names ->
  draw_glyph glyph_name pen = box_rect (CX - 20) (CY - 20) 40 40 pen /\
  draw_glyph glyph_name pen =
    (Ok tt, emit pen [MoveTo (CX - 20, CY - 20); LineTo (CX + 20, CY - 20);
                      LineTo (CX + 20, CY + 20); LineTo (CX - 20, CY + 20);
                      ClosePath]) /\
  subpaths [MoveTo (CX - 20, CY - 20); LineTo (CX + 20, CY - 20);
            LineTo (CX + 20, CY + 20); LineTo (CX - 20, CY + 20); ClosePath] =
    Some [mkSubpath (CX - 20, CY - 20)
            [Line (CX + 20, CY - 20); Line (CX + 20, CY + 20);
             Line (CX - 20, CY + 20)] true].
Proof.
  intros Hn. rewrite (draw_glyph_unregistered _ _ Hn).
  split; [by rewrite box_rect_run|]. split; reflexivity.
Qed.

(** C2, as the script behaves: for a name outside the registry the
    dispatch raises nothing; it returns normally and the pen has received
    the fallback square. *)
Theorem C2_unregistered_returns_normally (glyph_name : string) (pen : T2Pen) :
  glyph_name ∉ registered_names ->
  (draw_glyph glyph_name pen).1 = Ok tt /\
  (forall e, (draw_glyph glyph_name pen).1 <> Raise e) /\
  pen_program (draw_glyph glyph_name pen).2 = pen_program pen ++ fallback_square.
Proof.
  intros Hn. rewrite (draw_glyph_unregistered _ _ Hn). simpl.
  split; [reflexivity|]. split; [discriminate | reflexivity].
Qed.

(** C10. Each of these pairs of identifiers is dispatched to the same
    drawing call, so on every pen the two glyphs have the same outcome and
    the same outline. *)
Theorem C10_shared_outlines :
  Forall (fun ab : string * string =>
            forall pen, draw_glyph ab.1 pen = draw_glyph ab.2 pen)
    [("causes", "enables"); ("causes", "depends-on"); ("causes", "rad:arrow");
     ("has-a", "prov:asserted"); ("prov:asserted", "prov:inferred");
     ("precedes", "struct:triple"); ("located-in", "type:place");
     ("located-in", "rad:house"); ("type:process", "struct:confidence");
     ("rad:moon", "rad:tower"); ("type:person", "rad:figure");
     ("prov:discovered", "rad:star"); ("rad:serpent", "rad:wave");
     ("is-a", "rad:fire")].
Proof. repeat constructor. Qed.

End Fallback.

(** C2, as stated, fails: the empty name, which [build_font] passes for a
    codepoint missing from the map, is not registered, and drawing it on a
    fresh pen returns normally with the fallback square in the pen. *)
Lemma C2_counterexample :
  ("" ∉ registered_names) /\
  @draw_glyph RefMath.reference "" (mkPen ADVANCE_WIDTH []) =
    (Ok tt, mkPen 600 [MoveTo (280, 280); LineTo (320, 280); LineTo (320, 320);
                       LineTo (280, 320); ClosePath]) /\
  ~ (exists e, (@draw_glyph RefMath.reference "" (mkPen ADVANCE_WIDTH [])).1 = Raise e).
Proof.
  split; [apply (bool_decide_unpack _); by vm_compute|].
  split; [reflexivity|]. intros [e He]. discriminate He.
Qed.

Lemma C3_unregistered_draws_square_witness :
  ("no-such-glyph" ∉ registered_names) /\
  @draw_glyph RefMath.reference "no-such-glyph" (mkPen ADVANCE_WIDTH []) =
    (Ok tt, mkPen 600 [MoveTo (280, 280); LineTo (320, 280); LineTo (320, 320);
                       LineTo (280, 320); ClosePath]).
Proof.
  assert (Hn : "no-such-glyph" ∉ registered_names)
    by (apply (bool_decide_unpack _); vm_compute; exact I).
  split; [exact Hn|].
  exact (proj1 (proj2 (@C3_unregistered_draws_square RefMath.reference
                         "no-such-glyph" (mkPen ADVANCE_WIDTH []) Hn))).
Defined.

Lemma C2_unregistered_returns_normally_witness :
  ("uniFFFF" ∉ registered_names) /\
  (@draw_glyph RefMath.reference "uniFFFF" (mkPen ADVANCE_WIDTH [])).1 = Ok tt.
Proof.
  assert (Hn : "uniFFFF" ∉ registered_names)
    by (apply (bool_decide_unpack _); vm_compute; exact I).
  split; [exact Hn|].
  exact (proj1 (@C2_unregistered_returns_normally RefMath.reference
                  "uniFFFF" (mkPen ADVANCE_WIDTH []) Hn)).
Defined.

(** ** Float conversions on the font grid

    On the radii a charstring can hold (16-bit integers) the binary64
    computation [int(k * r)] agrees with the truncation toward zero of the
    exact decimal product. This is checked by running the float model on
    every such radius. *)

Lemma circle_k_value : circle_k = S754_finite false 4974538786803375 (-53).
Proof. by vm_compute. Qed.

Lemma arc_k_value : arc_k = S754_finite false 4953959590107546 (-53).
Proof. by vm_compute. Qed.

Lemma agrees_from_sound check n r0 :
  agrees_from check n r0 = true ->
  forall r, r0 <= r < r0 + Z.of_nat n -> check r = true /\ check (- r) = true.
Proof.
  revert r0. induction n as [|n IH]; intros r0 Hc r Hr; [lia|].
  simpl in Hc.
  destruct (check r0) eqn:E1; [|discriminate].
  destruct (check (- r0)) eqn:E2; [|discriminate].
  destruct (decide (r = r0)) as [->|Hne]; [done|].
  apply (IH (r0 + 1) Hc). lia.
Qed.

Lemma agrees_on_grid check :
  agrees_from check (Z.to_nat (grid_bound + 1)) 0 = true ->
  forall r, - grid_bound <= r <= grid_bound -> check r = true.
Proof.
  intros Hc r Hr. pose proof (agrees_from_sound _ _ _ Hc) as Hs.
  destruct (decide (0 <= r)) as [Hp|Hn].
  - apply (Hs r). unfold grid_bound in *. lia.
  - replace r with (- (- r)) by lia. apply (Hs (- r)). unfold grid_bound in *. lia.
Qed.

Lemma circle_offset_on_grid r :
  - grid_bound <= r <= grid_bound ->
  int_of_product circle_k r = Ok (Z.quot (5522847498 * r) 10000000000).
Proof.
  intros Hr.
  assert (Hc : agrees_from
                 (offset_agrees (S754_finite false 4974538786803375 (-53))
                    5522847498 10000000000)
                 (Z.to_nat (grid_bound + 1)) 0 = true) by (vm_compute; reflexivity).
  pose proof (agrees_on_grid _ Hc r Hr) as Hv.
  unfold offset_agrees in Hv. rewrite <- circle_k_value in Hv.
  destruct (int_of_product circle_k r) as [v|e]; [|discriminate].
  apply Z.eqb_eq in Hv. by subst.
Qed.

Lemma arc_offset_on_grid h :
  - grid_bound <= h <= grid_bound ->
  int_of_product arc_k h = Ok (Z.quot (55 * h) 100).
Proof.
  intros Hh.
  assert (Hc : agrees_from
                 (offset_agrees (S754_finite false 4953959590107546 (-53)) 55 100)
                 (Z.to_nat (grid_bound + 1)) 0 = true) by (vm_compute; reflexivity).
  pose proof (agrees_on_grid _ Hc h Hh) as Hv.
  unfold offset_agrees in Hv. rewrite <- arc_k_value in Hv.
  destruct (int_of_product arc_k h) as [v|e]; [|discriminate].
  apply Z.eqb_eq in Hv. by subst.
Qed.

(** Truncation toward zero is less than one unit away from the exact
    quotient, hence at most one unit away from a nearest integer. *)
Lemma quot_truncates num den :
  0 < den ->
  Z.abs (Z.quot num den) * den <= Z.abs num < (Z.abs (Z.quot num den) + 1) * den.
Proof.
  intros Hd.
  pose proof (Z.quot_rem' num den) as Hq.
  pose proof (Z.rem_bound_abs num den ltac:(lia)) as Hb.
  destruct (Z.le_gt_cases 0 num) as [Hn|Hn].
  - pose proof (Z.rem_nonneg num den ltac:(lia) Hn).
    pose proof (Z.quot_pos num den Hn Hd). nia.
  - pose proof (Z.rem_nonpos num den ltac:(lia) ltac:(lia)).
    assert (Z.quot num den <= 0).
    { rewrite <- (Z.opp_involutive num), Z.quot_opp_l by lia.
      pose proof (Z.quot_pos (- num) den ltac:(lia) Hd). lia. }
    nia.
Qed.

Lemma quot_near_nearest num den n :
  0 < den -> nearest_to n num den -> Z.abs (Z.quot num den - n) <= 1.
Proof.
  intros Hd Hn. unfold nearest_to in Hn.
  pose proof (Z.quot_rem' num den) as Hq.
  pose proof (Z.rem_bound_abs num den ltac:(lia)) as Hb.
  nia.
Qed.

(** ** Arcs and the star *)

Lemma arc_left_run cx cy size pen :
  arc_left cx cy size pen =
    match int_of_product arc_k (size / 2) with
    | Py.Ok k => (Ok tt, emit pen (arc_left_path cx cy (size / 2) k))
    | Py.Raise e => (Raise e, pen)
    end.
Proof.
  unfold arc_left. cbv [mbind Draw_bind bind lift].
  destruct (int_of_product arc_k (size / 2)) as [k|e]; [|reflexivity].
  run_pen. reflexivity.
Qed.

Lemma arc_right_run cx cy size pen :
  arc_right cx cy size pen =
    match int_of_product arc_k (size / 2) with
    | Py.Ok k => (Ok tt, emit pen (arc_right_path cx cy (size / 2) k))
    | Py.Raise e => (Raise e, pen)
    end.
Proof.
  unfold arc_right. cbv [mbind Draw_bind bind lift].
  destruct (int_of_product arc_k (size / 2)) as [k|e]; [|reflexivity].
  run_pen. reflexivity.
Qed.

Lemma circle_run cx cy r pen :
  circle cx cy r pen =
    match int_of_product circle_k r with
    | Py.Ok kr => (Ok tt, emit pen (circle_path cx cy r kr))
    | Py.Raise e => (Raise e, pen)
    end.
Proof.
  destruct (int_of_product circle_k r) as [kr|e] eqn:E.
  - by apply circle_run_ok.
  - by apply circle_run_raise.
Qed.

(** The person follows the conversion of its head. *)
Lemma person_run cx cy size pen :
  person cx cy size pen =
    match int_of_product circle_k (size / 6) with
    | Py.Ok kr => (Ok tt, emit pen (person_path cx cy size kr))
    | Py.Raise e => (Raise e, pen)
    end.
Proof.
  pose proof (circle_run cx (cy + size / 3) (size / 6) pen) as Hrun.
  unfold person. cbv [mbind Draw_bind bind]. rewrite Hrun.
  destruct (int_of_product circle_k (size / 6)) as [kr|e]; [|reflexivity].
  run_pen. reflexivity.
Qed.

Lemma for_each_lineTo (ps : list Point) (pen : T2Pen) :
  for_each ps lineTo pen = (Ok tt, emit pen (LineTo <$> ps)).
Proof.
  revert pen. induction ps as [|p ps IH]; intros pen; simpl.
  - by rewrite emit_nil.
  - cbv [mbind Draw_bind bind lineTo]. rewrite IH, emit_emit. reflexivity.
Qed.

Lemma mapM_Forall2 {A B} (f : A -> Py.result B) (l : list A) (ys : list B) :
  Py.mapM f l = Ok ys -> Forall2 (fun x y => f x = Ok y) l ys.
Proof.
  revert ys. induction l as [|a l IH]; intros ys; simpl.
  - intros [= <-]. constructor.
  - destruct (f a) as [b|e] eqn:Ea; simpl; [|discriminate].
    destruct (Py.mapM f l) as [bs|e] eqn:El; simpl; [|discriminate].
    intros [= <-]. constructor; [done | by apply IH].
Qed.

Lemma split_polyline (ps : list Point) (s : Point) (segs : list Segment)
    (closed : bool) :
  split_subpaths ((LineTo <$> ps) ++ [if closed then ClosePath else EndPath])
      (Some (s, segs)) =
    Some [mkSubpath s (segs ++ (Line <$> ps)) closed].
Proof.
  revert segs. induction ps as [|p ps IH]; intros segs; simpl.
  - rewrite app_nil_r. by destruct closed.
  - rewrite IH, <- app_assoc. reflexivity.
Qed.

Section Star.
Context `{Math}.

(** The star computes its ten vertices first; it raises before touching
    the pen when one of the conversions raises, and otherwise draws one
    closed polygon through them. *)
Lemma star_5_run cx cy outer_r inner_r pen :
  (exists e, star_5 cx cy outer_r inner_r pen = (Raise e, pen)) \/
  (exists p0 rest,
     Py.mapM (star_point cx cy outer_r inner_r) (range 10) = Ok (p0 :: rest) /\
     length rest = 9%nat /\
     star_5 cx cy outer_r inner_r pen =
       (Ok tt, emit pen (MoveTo p0 :: (LineTo <$> rest) ++ [ClosePath]))).
Proof.
  unfold star_5. cbv [mbind Draw_bind bind lift].
  destruct (Py.mapM (star_point cx cy outer_r inner_r) (range 10))
    as [[|p0 rest]|e] eqn:E.
  - left. by exists Py.IndexError.
  - right. exists p0, rest. split; [done|]. split.
    + apply mapM_Forall2, Forall2_length in E. simpl in E. lia.
    + cbv [moveTo closePath]. rewrite for_each_lineTo, !emit_emit. reflexivity.
  - left. by exists e.
Qed.

End Star.

(** ** C4: the circle *)

(** C4, on the font grid. For every center and every radius of magnitude
    at most 32768 the circle returns normally and emits one closed subpath
    of four cubic segments; the control points are offset from the axis
    points by kr, the truncation toward zero of 0.5522847498 * r, which is
    at most one unit away from any nearest integer of that product; the
    fourth segment ends at the start point (cx, cy + r). *)
Theorem C4_circle_on_grid (cx cy r : Z) (pen : T2Pen) :
  -32768 <= r <= 32768 ->
  let kr := Z.quot (5522847498 * r) 10000000000 in
  circle cx cy r pen =
    (Ok tt, emit pen [MoveTo (cx, cy + r);
                      CurveTo (cx + kr, cy + r) (cx + r, cy + kr) (cx + r, cy);
                      CurveTo (cx + r, cy - kr) (cx + kr, cy - r) (cx, cy - r);
                      CurveTo (cx - kr, cy - r) (cx - r, cy - kr) (cx - r, cy);
                      CurveTo (cx - r, cy + kr) (cx - kr, cy + r) (cx, cy + r);
                      ClosePath]) /\
  subpaths (circle_path cx cy r kr) =
    Some [mkSubpath (cx, cy + r)
            [Curve (cx + kr, cy + r) (cx + r, cy + kr) (cx + r, cy);
             Curve (cx + r, cy - kr) (cx + kr, cy - r) (cx, cy - r);
             Curve (cx - kr, cy - r) (cx - r, cy - kr) (cx - r, cy);
             Curve (cx - r, cy + kr) (cx - kr, cy + r) (cx, cy + r)] true] /\
  seg_end (Curve (cx - r, cy + kr) (cx - kr, cy + r) (cx, cy + r)) = (cx, cy + r) /\
  (forall n, nearest_to n (5522847498 * r) 10000000000 -> Z.abs (kr - n) <= 1).
Proof.
  intros Hr kr. split; [|split; [reflexivity|split; [reflexivity|]]].
  - apply circle_run_ok, circle_offset_on_grid. unfold grid_bound. lia.
  - intros n Hn. by apply quot_near_nearest.
Qed.

Lemma C4_circle_on_grid_witness :
  -32768 <= 200 <= 32768 /\
  circle 300 300 200 (mkPen 600 []) =
    (Ok tt, mkPen 600 [MoveTo (300, 500);
                       CurveTo (410, 500) (500, 410) (500, 300);
                       CurveTo (500, 190) (410, 100) (300, 100);
                       CurveTo (190, 100) (100, 190) (100, 300);
                       CurveTo (100, 410) (190, 500) (300, 500);
                       ClosePath]).
Proof.
  split; [lia|].
  exact (proj1 (C4_circle_on_grid 300 300 200 (mkPen 600 []) ltac:(lia))).
Defined.

(** C4, as stated for every radius, fails. At r = 3 * 10^19 the binary64
    product is 1024 units away from the nearest integer of the decimal
    product. *)
Lemma C4_counterexample :
  circle 300 300 30000000000000000000 (mkPen 600 []) =
    (Ok tt, mkPen 600 (circle_path 300 300 30000000000000000000
                         16568542493999998976)) /\
  nearest_to 16568542494000000000
    (5522847498 * 30000000000000000000) 10000000000 /\
  Z.abs (16568542493999998976 - 16568542494000000000) = 1024.
Proof.
  split; [|split; [unfold nearest_to; lia | reflexivity]].
  rewrite circle_run.
  replace (int_of_product circle_k 30000000000000000000)
    with (@Py.Ok Z 16568542493999998976) by (vm_compute; reflexivity).
  reflexivity.
Qed.

(** A radius that does not fit a binary64 value: the conversion raises and
    the pen receives nothing. *)
Lemma circle_overflow (cx cy : Z) (pen : T2Pen) :
  circle cx cy (2 ^ 1024) pen = (Raise Py.OverflowError, pen).
Proof.
  apply circle_run_raise. vm_compute. reflexivity.
Qed.

(** ** C5: integer coordinates *)

(** [int(x)] on a finite float truncates toward zero. *)
Lemma to_int_truncates (s : bool) (m : positive) (e v : Z) :
  Float64.to_int (S754_finite s m e) = Ok v ->
  v = (if s then -1 else 1) *
      (if Z.leb 0 e then Zpos m * 2 ^ e else Zpos m / 2 ^ (- e)).
Proof.
  unfold Float64.to_int. intros [= <-].
  destruct (Z.leb_spec 0 e) as [He|He]; destruct e as [|p|p]; try lia.
  - rewrite Z.pow_0_r. destruct s; lia.
  - rewrite Z.shiftl_mul_pow2 by lia. destruct s; lia.
  - rewrite Z.shiftr_div_pow2 by lia.
    change (- Z.neg p) with (Z.pos p). destruct s; lia.
Qed.

(** C5, as stated, fails. The pupil of [rad:eye] is a circle of radius
    50 = 400 // 8 at (300, 300); its first control point has abscissa 327,
    while the exact abscissa 300 + 0.5522847498 * 50 = 327.61423749 is
    nearest to 328. *)
Lemma C5_counterexample :
  circle 300 300 50 (mkPen 600 []) =
    (Ok tt, mkPen 600 [MoveTo (300, 350);
                       CurveTo (327, 350) (350, 327) (350, 300);
                       CurveTo (350, 273) (327, 250) (300, 250);
                       CurveTo (273, 250) (250, 273) (250, 300);
                       CurveTo (250, 327) (273, 350) (300, 350);
                       ClosePath]) /\
  ~ nearest_to 327 (300 * 10000000000 + 5522847498 * 50) 10000000000 /\
  nearest_to 328 (300 * 10000000000 + 5522847498 * 50) 10000000000.
Proof.
  split; [|unfold nearest_to; lia].
  rewrite circle_run.
  replace (int_of_product circle_k 50) with (@Py.Ok Z 27)
    by (vm_compute; reflexivity).
  reflexivity.
Qed.

Section Coordinates.
Context `{Math}.

(** Every vertex of a drawn star is the center plus the two truncated
    float products of the loop body. *)
Lemma star_5_vertices cx cy outer_r inner_r (pts : list Point) :
  Py.mapM (star_point cx cy outer_r inner_r) (range 10) = Ok pts ->
  Forall2
    (fun (i : Z) (p : Point) =>
       let r := if Z.eqb (i mod 2) 0 then outer_r else inner_r in
       exists angle,
         star_angle i = Ok angle /\
         int_of_scaled r (math_cos angle) = Ok (p.1 - cx) /\
         int_of_scaled r (math_sin angle) = Ok (p.2 - cy))
    (range 10) pts.
Proof.
  intros E%mapM_Forall2. eapply Forall2_impl; [exact E|].
  intros i p Hp. unfold star_point in Hp.
  cbv [mbind Py.result_bind Py.bind] in Hp.
  destruct (star_angle i) as [angle|e] eqn:Ea; [|discriminate].
  destruct (int_of_scaled _ (math_cos angle)) as [dx|e] eqn:Ex; [|discriminate].
  destruct (int_of_scaled _ (math_sin angle)) as [dy|e] eqn:Ey; [|discriminate].
  injection Hp as <-. exists angle. simpl.
  split; [done|]. split; [rewrite Ex|rewrite Ey]; f_equal; lia.
Qed.

(** One ray of the sun: when the four conversions return, the ray runs
    between the two points they give. *)
Lemma sun_ray_ends cx cy sz (i : Z) (pen pen' : T2Pen) :
  sun_ray cx cy sz i pen = (Ok tt, pen') ->
  exists angle dx1 dy1 dx2 dy2,
    Py.bind (Float64.int_mul i math_pi) (fun ipi => Float64.div_int ipi 4) = Ok angle /\
    int_of_scaled (sz / 3 + 20) (math_cos angle) = Ok dx1 /\
    int_of_scaled (sz / 3 + 20) (math_sin angle) = Ok dy1 /\
    int_of_scaled (sz / 2) (math_cos angle) = Ok dx2 /\
    int_of_scaled (sz / 2) (math_sin angle) = Ok dy2 /\
    pen' = emit pen [MoveTo (cx + dx1, cy + dy1); LineTo (cx + dx2, cy + dy2);
                     EndPath].
Proof.
  unfold sun_ray, int_cos, int_sin.
  cbv [mbind Draw_bind bind lift Py.result_bind].
  destruct (Py.bind (Float64.int_mul i math_pi) _) as [angle|e] eqn:Ea;
    [|intros [=]].
  destruct (int_of_scaled (sz / 3 + 20) (math_cos angle)) as [dx1|e] eqn:E1;
    [|intros [=]].
  destruct (int_of_scaled (sz / 3 + 20) (math_sin angle)) as [dy1|e] eqn:E2;
    [|intros [=]].
  destruct (int_of_scaled (sz / 2) (math_cos angle)) as [dx2|e] eqn:E3;
    [|intros [=]].
  destruct (int_of_scaled (sz / 2) (math_sin angle)) as [dy2|e] eqn:E4;
    [|intros [=]].
  cbv [moveTo lineTo endPath]. rewrite !emit_emit. cbn [app]. intros [= <-].
  by exists angle, dx1, dy1, dx2, dy2.
Qed.

(** C5, as the script behaves. No coordinate of a primitive is rounded
    to nearest. The triangles, the diamond, the arrows, the rectangle, the
    cross, the wave, the house and the pillar put every coordinate at the
    center plus or minus fractions of the size taken with floor division
    ([size // n] is the largest q with n * q <= size), and the dot is the
    circle of radius [size // 6]. Float products go through [int], which
    truncates toward zero: on the font grid the control offset of the
    circle (and of the person's head) is the truncated product
    0.5522847498 * r and that of the arcs the truncated product
    0.55 * (size // 2), in magnitude not above the exact product and less
    than one unit below it; a drawn star has the ten vertices
    (cx + int(r * cos a), cy + int(r * sin a)), a drawn ray of [rad:sun]
    runs between two such points, and [int] truncates a finite float
    toward zero. *)
Theorem C5_coordinates_truncate :
  (forall size n, 0 < n -> n * (size / n) <= size < n * (size / n) + n) /\
  (forall cx cy size pen,
     let half := size / 2 in
     let qtr := size / 4 in
     let t := size / 6 in
     let cap := size / 8 in
     triangle_up cx cy size pen =
       (Ok tt, emit pen [MoveTo (cx, cy + half); LineTo (cx + half, cy - half);
                         LineTo (cx - half, cy - half); ClosePath]) /\
     triangle_down cx cy size pen =
       (Ok tt, emit pen [MoveTo (cx, cy - half); LineTo (cx + half, cy + half);
                         LineTo (cx - half, cy + half); ClosePath]) /\
     diamond cx cy size pen =
       (Ok tt, emit pen [MoveTo (cx, cy + half); LineTo (cx + half, cy);
                         LineTo (cx, cy - half); LineTo (cx - half, cy);
                         ClosePath]) /\
     arrow_right cx cy size pen =
       (Ok tt, emit pen [MoveTo (cx - half, cy - qtr); LineTo (cx, cy - qtr);
                         LineTo (cx, cy - half); LineTo (cx + half, cy);
                         LineTo (cx, cy + half); LineTo (cx, cy + qtr);
                         LineTo (cx - half, cy + qtr); ClosePath]) /\
     arrow_up cx cy size pen =
       (Ok tt, emit pen [MoveTo (cx, cy + half); LineTo (cx + half, cy);
                         LineTo (cx + qtr, cy); LineTo (cx + qtr, cy - half);
                         LineTo (cx - qtr, cy - half); LineTo (cx - qtr, cy);
                         LineTo (cx - half, cy); ClosePath]) /\
     arrow_down cx cy size pen =
       (Ok tt, emit pen [MoveTo (cx, cy - half); LineTo (cx + half, cy);
                         LineTo (cx + qtr, cy); LineTo (cx + qtr, cy + half);
                         LineTo (cx - qtr, cy + half); LineTo (cx - qtr, cy);
                         LineTo (cx - half, cy); ClosePath]) /\
     cross cx cy size pen =
       (Ok tt, emit pen [MoveTo (cx - half, cy - t);
                         LineTo (cx - half + size, cy - t);
                         LineTo (cx - half + size, cy - t + 2 * t);
                         LineTo (cx - half, cy - t + 2 * t); ClosePath;
                         MoveTo (cx - t, cy - half);
                         LineTo (cx - t + 2 * t, cy - half);
                         LineTo (cx - t + 2 * t, cy - half + size);
                         LineTo (cx - t, cy - half + size); ClosePath]) /\
     wave cx cy size pen =
       (Ok tt, emit pen [MoveTo (cx - half, cy);
                         CurveTo (cx - qtr, cy + qtr) (cx, cy + qtr) (cx, cy);
                         CurveTo (cx, cy - qtr) (cx + qtr, cy - qtr) (cx + half, cy);
                         EndPath]) /\
     house cx cy size pen =
       (Ok tt, emit pen (box_rect_path (cx - half + qtr) (cy - half) half half ++
                         triangle_up_path cx (cy + qtr) half)) /\
     pillar cx cy size pen =
       (Ok tt, emit pen (box_rect_path (cx - cap) (cy - half) (2 * cap) size ++
                         box_rect_path (cx - cap * 2) (cy + half - cap) (4 * cap) cap ++
                         box_rect_path (cx - cap * 2) (cy - half) (4 * cap) cap)) /\
     dot_glyph cx cy size pen = circle cx cy t pen) /\
  (forall x y w h pen,
     box_rect x y w h pen =
       (Ok tt, emit pen [MoveTo (x, y); LineTo (x + w, y); LineTo (x + w, y + h);
                         LineTo (x, y + h); ClosePath])) /\
  (forall cx cy r pen,
     -32768 <= r <= 32768 ->
     exists kr,
       circle cx cy r pen = (Ok tt, emit pen (circle_path cx cy r kr)) /\
       kr = Z.quot (5522847498 * r) 10000000000 /\
       Z.abs kr * 10000000000 <= Z.abs (5522847498 * r)
         < (Z.abs kr + 1) * 10000000000) /\
  (forall cx cy size pen,
     -32768 <= size / 2 <= 32768 ->
     exists k,
       arc_left cx cy size pen = (Ok tt, emit pen (arc_left_path cx cy (size / 2) k)) /\
       arc_right cx cy size pen =
         (Ok tt, emit pen (arc_right_path cx cy (size / 2) k)) /\
       k = Z.quot (55 * (size / 2)) 100 /\
       Z.abs k * 100 <= Z.abs (55 * (size / 2)) < (Z.abs k + 1) * 100) /\
  (forall cx cy size pen,
     -32768 <= size / 6 <= 32768 ->
     person cx cy size pen =
       (Ok tt, emit pen (person_path cx cy size
                           (Z.quot (5522847498 * (size / 6)) 10000000000)))) /\
  (forall cx cy outer_r inner_r pen pen',
     star_5 cx cy outer_r inner_r pen = (Ok tt, pen') ->
     exists p0 rest,
       pen' = emit pen (MoveTo p0 :: (LineTo <$> rest) ++ [ClosePath]) /\
       Forall2
         (fun (i : Z) (p : Point) =>
            let r := if Z.eqb (i mod 2) 0 then outer_r else inner_r in
            exists angle,
              star_angle i = Ok angle /\
              int_of_scaled r (math_cos angle) = Ok (p.1 - cx) /\
              int_of_scaled r (math_sin angle) = Ok (p.2 - cy))
         (range 10) (p0 :: rest)) /\
  (forall cx cy sz i pen pen',
     sun_ray cx cy sz i pen = (Ok tt, pen') ->
     exists angle dx1 dy1 dx2 dy2,
       Py.bind (Float64.int_mul i math_pi) (fun ipi => Float64.div_int ipi 4) =
         Ok angle /\
       int_of_scaled (sz / 3 + 20) (math_cos angle) = Ok dx1 /\
       int_of_scaled (sz / 3 + 20) (math_sin angle) = Ok dy1 /\
       int_of_scaled (sz / 2) (math_cos angle) = Ok dx2 /\
       int_of_scaled (sz / 2) (math_sin angle) = Ok dy2 /\
       pen' = emit pen [MoveTo (cx + dx1, cy + dy1); LineTo (cx + dx2, cy + dy2);
                        EndPath]) /\
  (forall s m e v,
     Float64.to_int (S754_finite s m e) = Ok v ->
     v = (if s then -1 else 1) *
         (if Z.leb 0 e then Zpos m * 2 ^ e else Zpos m / 2 ^ (- e))).
Proof.
  split.
  { intros size n Hn. pose proof (Z.div_mod size n ltac:(lia)).
    pose proof (Z.mod_pos_bound size n Hn). lia. }
  split.
  { intros cx cy size pen half qtr t cap. subst half qtr t cap.
    split; [apply triangle_up_run|]. split; [apply triangle_down_run|].
    split; [apply diamond_run|].
    split; [unfold arrow_right; run_pen; reflexivity|].
    split; [unfold arrow_up; run_pen; reflexivity|].
    split; [unfold arrow_down; run_pen; reflexivity|].
    split; [apply cross_run|]. split; [apply wave_run|].
    split; [apply house_run|].
    split; [unfold pillar, box_rect; run_pen; reflexivity | reflexivity]. }
  split; [intros; apply box_rect_run|].
  split.
  { intros cx cy r pen Hr. eexists. split; [|split; [reflexivity|]].
    + apply circle_run_ok, circle_offset_on_grid. unfold grid_bound. lia.
    + by apply quot_truncates. }
  split.
  { intros cx cy size pen Hs. exists (Z.quot (55 * (size / 2)) 100).
    rewrite arc_left_run, arc_right_run.
    rewrite arc_offset_on_grid by (unfold grid_bound; lia).
    split; [reflexivity|]. split; [reflexivity|]. split; [reflexivity|].
    by apply quot_truncates. }
  split.
  { intros cx cy size pen Hs. rewrite person_run.
    rewrite circle_offset_on_grid by (unfold grid_bound; lia). reflexivity. }
  split.
  { intros cx cy outer_r inner_r pen pen' Hs.
    destruct (star_5_run cx cy outer_r inner_r pen)
      as [[e He]|(p0 & rest & Hm & _ & Hr)]; [congruence|].
    rewrite Hr in Hs. injection Hs as <-.
    exists p0, rest. split; [done|]. by apply star_5_vertices. }
  split; [apply sun_ray_ends | apply to_int_truncates].
Qed.

End Coordinates.

Lemma C5_coordinates_truncate_witness :
  -32768 <= 50 <= 32768 /\
  exists kr,
    circle 300 300 50 (mkPen 600 []) =
      (Ok tt, emit (mkPen 600 []) (circle_path 300 300 50 kr)) /\
    kr = Z.quot (5522847498 * 50) 10000000000 /\
    Z.abs kr * 10000000000 <= Z.abs (5522847498 * 50)
      < (Z.abs kr + 1) * 10000000000.
Proof.
  split; [lia|].
  exact (proj1 (proj2 (proj2 (proj2 (@C5_coordinates_truncate RefMath.reference))))
           300 300 50 (mkPen 600 []) ltac:(lia)).
Defined.

(** Floor division, not truncation, for a negative size: the shaft of
    this up arrow is at 300 + (-5 // 4) = 298. *)
Lemma arrow_up_negative_size :
  arrow_up 300 300 (-5) (mkPen 600 []) =
    (Ok tt, mkPen 600 [MoveTo (300, 297); LineTo (297, 300); LineTo (298, 300);
                       LineTo (298, 303); LineTo (302, 303); LineTo (302, 300);
                       LineTo (303, 300); ClosePath]).
Proof. reflexivity. Qed.

(** ** C9: closed fills and open strokes *)

Ltac solve_draws :=
  eexists; eexists; split; [eassumption || reflexivity|];
  split; [reflexivity|]; split; [discriminate|];
  repeat constructor.

Section Termination.
Context `{Math}.

(** C9. Each filled primitive (upward and downward triangle, diamond,
    rectangle, star, cross) ends every subpath it emits with [ClosePath];
    each stroke primitive (left arc, right arc, wave) ends every subpath
    it emits with [EndPath]. The polygons and the wave always draw; the
    star and the arcs convert floats first, and either raise before
    emitting anything or draw; the arcs draw whenever size // 2 is on the
    font grid. *)
Theorem C9_path_termination (cx cy size x y w h outer_r inner_r : Z) (pen : T2Pen) :
  draws true (triangle_up cx cy size) pen /\
  draws true (triangle_down cx cy size) pen /\
  draws true (diamond cx cy size) pen /\
  draws true (box_rect x y w h) pen /\
  draws true (cross cx cy size) pen /\
  (draws true (star_5 cx cy outer_r inner_r) pen \/
   raises_untouched (star_5 cx cy outer_r inner_r) pen) /\
  (draws false (arc_left cx cy size) pen \/
   raises_untouched (arc_left cx cy size) pen) /\
  (draws false (arc_right cx cy size) pen \/
   raises_untouched (arc_right cx cy size) pen) /\
  draws false (wave cx cy size) pen /\
  (-32768 <= size / 2 <= 32768 ->
   draws false (arc_left cx cy size) pen /\
   draws false (arc_right cx cy size) pen).
Proof.
  pose proof (triangle_up_run cx cy size pen).
  pose proof (triangle_down_run cx cy size pen).
  pose proof (diamond_run cx cy size pen).
  pose proof (box_rect_run x y w h pen).
  pose proof (cross_run cx cy size pen).
  pose proof (wave_run cx cy size pen).
  pose proof (arc_left_run cx cy size pen) as Hl.
  pose proof (arc_right_run cx cy size pen) as Hr.
  repeat split; try solve_draws.
  - destruct (star_5_run cx cy outer_r inner_r pen)
      as [[e He]|(p0 & rest & _ & _ & Hs)].
    + right. by exists e.
    + left. eexists; eexists. split; [exact Hs|].
      split; [apply (split_polyline rest p0 [] true)|].
      split; [discriminate|]. by repeat constructor.
  - destruct (int_of_product arc_k (size / 2)) as [k|e].
    + left. solve_draws.
    + right. by exists e.
  - destruct (int_of_product arc_k (size / 2)) as [k|e].
    + left. solve_draws.
    + right. by exists e.
  - rewrite arc_offset_on_grid in Hl by (unfold grid_bound; lia). solve_draws.
  - rewrite arc_offset_on_grid in Hr by (unfold grid_bound; lia). solve_draws.
Qed.

End Termination.

(** With the reference [math] the star of the glyphs draws: outer radius
    200 and inner radius 100 around the cell center. *)
Lemma star_5_reference :
  @star_5 RefMath.reference 300 300 200 100 (mkPen 600 []) =
    (Ok tt, mkPen 600 [MoveTo (300, 500); LineTo (242, 380); LineTo (110, 361);
                       LineTo (205, 270); LineTo (183, 139); LineTo (300, 200);
                       LineTo (417, 139); LineTo (395, 270); LineTo (490, 361);
                       LineTo (358, 380); ClosePath]).
Proof. vm_compute. reflexivity. Qed.

(** ** C8: glyph order and character map *)

Lemma is_Some_lookup_keys {V} (m : gmap Z V) (c : Z) :
  is_Some (m !! c) <-> c ∈ (map_to_list m).*1.
Proof.
  split.
  - intros [v Hv]. apply list_elem_of_fmap. exists (c, v).
    split; [done | by apply elem_of_map_to_list].
  - intros [[c' v] [-> Hv%elem_of_map_to_list]]%list_elem_of_fmap. by exists v.
Qed.

(** What the first loop of [build_font] computes from the codepoint map. *)
Lemma named_glyphs_order :
  (name_glyphs (sorted_items GLYPH_MAP) [".notdef"; "space"] {[ 0x20 := "space" ]}).1 =
    ".notdef" :: "space" :: (uni_name <$> (sorted_items GLYPH_MAP).*1).
Proof. vm_compute. reflexivity. Qed.

Lemma named_glyphs_cmap_keys :
  Forall (fun c => c = 0x20 \/ in_fixed_block c \/ in_radical_block c)
    (map_to_list (name_glyphs (sorted_items GLYPH_MAP) [".notdef"; "space"]
                    {[ 0x20 := "space" ]}).2).*1 /\
  Forall (fun c => (name_glyphs (sorted_items GLYPH_MAP) [".notdef"; "space"]
                      {[ 0x20 := "space" ]}).2 !! c =
                   Some (if Z.eqb c 0x20 then "space" else uni_name c))
    (0x20 :: seqZ 0xE000 35 ++ seqZ 0xE100 32).
Proof.
  split; apply (bool_decide_unpack _); by vm_compute.
Qed.

(** The drawing loop recovers each codepoint from its glyph name, and the
    name it then looks up is registered: no glyph of the map is drawn by
    the fallback. *)
Lemma uni_name_roundtrip :
  Forall (fun kv : Z * string =>
            int16 (slice_from 3 (uni_name kv.1)) = Ok kv.1 /\
            default "" (GLYPH_MAP !! kv.1) = kv.2 /\
            kv.2 ∈ registered_names)
    GLYPH_MAP_display.
Proof. apply (bool_decide_unpack _). by vm_compute. Qed.

Lemma Ok_inj {A} (a b : A) : @Py.Ok A a = Ok b -> a = b.
Proof. by intros [= ->]. Qed.

Lemma Raise_not_Ok {A} (e : Py.exn) (a : A) : @Py.Raise A e <> Ok a.
Proof. discriminate. Qed.

Section Assembly.
Context `{Math}.

(** Every glyph of the order gets the charstring its drawing produced;
    other entries of the dictionary are left alone. *)
Lemma draw_all_spec (glyph_names : list string)
    (d0 d : gmap string CharString) :
  draw_all glyph_names d0 = Ok d ->
  (forall g, g ∉ glyph_names -> d !! g = d0 !! g) /\
  (forall g, g ∈ glyph_names -> exists cs, draw_named g = Ok cs /\ d !! g = Some cs).
Proof.
  revert d0. induction glyph_names as [|g0 rest IH]; intros d0; simpl.
  - intros [= <-]. split; [done|]. intros g Hg. by apply elem_of_nil in Hg.
  - cbv [mbind Py.result_bind Py.bind].
    destruct (draw_named g0) as [cs|e] eqn:E0; [|discriminate].
    intros [Hout Hin]%IH. split.
    + intros g [Hne Hg]%not_elem_of_cons.
      rewrite (Hout g Hg). by rewrite lookup_insert_ne.
    + intros g Hg. destruct (decide (g ∈ rest)) as [Hr|Hr]; [by apply Hin|].
      apply elem_of_cons in Hg as [->|Hg]; [|done].
      exists cs. split; [done|]. rewrite (Hout g0 Hr). by rewrite lookup_insert_eq.
Qed.

Lemma build_font_inv (font : Font) :
  build_font = Ok font ->
  glyphOrder font =
    (name_glyphs (sorted_items GLYPH_MAP) [".notdef"; "space"] {[ 0x20 := "space" ]}).1 /\
  characterMap font =
    (name_glyphs (sorted_items GLYPH_MAP) [".notdef"; "space"] {[ 0x20 := "space" ]}).2 /\
  draw_all (glyphOrder font) ∅ = Ok (charStrings font).
Proof.
  unfold build_font. cbv [mbind Py.result_bind Py.bind].
  destruct (draw_all _ ∅) as [glyph_dict|e] eqn:E.
  - intros Hf. apply Ok_inj in Hf. subst font.
    cbn [glyphOrder characterMap charStrings].
    split; [reflexivity|]. split; [reflexivity | exact E].
  - intros Hf. apply Raise_not_Ok in Hf. destruct Hf.
Qed.

Lemma draw_named_notdef :
  draw_named ".notdef" =
    Ok (mkCharString ADVANCE_WIDTH
          [MoveTo (100, 0); LineTo (500, 0); LineTo (500, 700);
           LineTo (100, 700); ClosePath]).
Proof. reflexivity. Qed.

Lemma draw_named_space : draw_named "space" = Ok (mkCharString ADVANCE_WIDTH []).
Proof. reflexivity. Qed.

(** C8. In an assembled font the glyph order is [.notdef], then [space],
    then the 67 glyphs [uniXXXX] of the codepoint map in strictly
    ascending codepoint order; [.notdef] is drawn as one closed rectangle
    and [space] has an empty outline; the character map is defined exactly
    on 0x20, 0xE000..0xE022 and 0xE100..0xE11F, sending 0x20 to [space] and
    a codepoint to its [uniXXXX] glyph. *)
Theorem C8_glyph_order_and_cmap (font : Font) :
  build_font = Ok font ->
  let cps := (sorted_items GLYPH_MAP).*1 in
  glyphOrder font = ".notdef" :: "space" :: (uni_name <$> cps) /\
  length cps = 67%nat /\
  StronglySorted Z.lt cps /\
  (forall c, c ∈ cps <-> is_Some (GLYPH_MAP !! c)) /\
  uni_name <$> [0xE000; 0xE022; 0xE100; 0xE11F] =
    ["uniE000"; "uniE022"; "uniE100"; "uniE11F"] /\
  charStrings font !! ".notdef" =
    Some (mkCharString ADVANCE_WIDTH
            [MoveTo (100, 0); LineTo (500, 0); LineTo (500, 700);
             LineTo (100, 700); ClosePath]) /\
  subpaths [MoveTo (100, 0); LineTo (500, 0); LineTo (500, 700);
            LineTo (100, 700); ClosePath] =
    Some [mkSubpath (100, 0) [Line (500, 0); Line (500, 700); Line (100, 700)]
            true] /\
  charStrings font !! "space" = Some (mkCharString ADVANCE_WIDTH []) /\
  subpaths [] = Some [] /\
  (forall c, is_Some (characterMap font !! c) <->
             c = 0x20 \/ in_fixed_block c \/ in_radical_block c) /\
  characterMap font !! 0x20 = Some "space" /\
  (forall c, in_fixed_block c \/ in_radical_block c ->
             characterMap font !! c = Some (uni_name c)).
Proof.
  intros (Hord & Hcmap & Hdraw)%build_font_inv cps.
  rewrite named_glyphs_order in Hord. fold cps in Hord.
  destruct named_glyphs_cmap_keys as [Hkeys Hvals]. rewrite <- Hcmap in Hkeys, Hvals.
  assert (Hrange : forall c, c = 0x20 \/ in_fixed_block c \/ in_radical_block c ->
            characterMap font !! c = Some (if Z.eqb c 0x20 then "space" else uni_name c)).
  { intros c Hc. rewrite Forall_forall in Hvals. apply Hvals.
    apply elem_of_cons. destruct Hc as [->|[Hc|Hc]]; [by left|right..];
      apply elem_of_app; [left|right]; apply elem_of_seqZ;
      unfold in_fixed_block, in_radical_block in Hc; lia. }
  apply draw_all_spec in Hdraw as [_ Hin].
  split; [exact Hord|]. split; [by vm_compute|].
  split. { apply (bool_decide_unpack _). by vm_compute. }
  split.
  { intros c. unfold cps, sorted_items.
    rewrite merge_sort_Permutation. symmetry. apply is_Some_lookup_keys. }
  split; [by vm_compute|].
  split.
  { destruct (Hin ".notdef") as (cs & Hcs & ->);
      [rewrite Hord; apply list_elem_of_here|].
    rewrite draw_named_notdef in Hcs. apply Ok_inj in Hcs. by subst cs. }
  split; [reflexivity|].
  split.
  { destruct (Hin "space") as (cs & Hcs & ->);
      [rewrite Hord; apply list_elem_of_further, list_elem_of_here|].
    rewrite draw_named_space in Hcs. apply Ok_inj in Hcs. by subst cs. }
  split; [reflexivity|].
  split.
  { intros c. split.
    - intros Hc%is_Some_lookup_keys. rewrite Forall_forall in Hkeys. by apply Hkeys.
    - intros Hc. rewrite (Hrange c Hc). eauto. }
  split; [by rewrite (Hrange 0x20) by (by left)|].
  intros c Hc. rewrite (Hrange c) by (by right).
  destruct (Z.eqb_spec c 0x20) as [->|_]; [|done].
  unfold in_fixed_block, in_radical_block in Hc. lia.
Qed.

End Assembly.

Lemma C8_glyph_order_and_cmap_witness :
  match @build_font RefMath.reference with
  | Py.Ok font =>
      glyphOrder font =
        ".notdef" :: "space" :: (uni_name <$> (sorted_items GLYPH_MAP).*1) /\
      length (glyphOrder font) = 69%nat
  | Py.Raise _ => False
  end.
Proof.
  assert (Hr : Py.raised (@build_font RefMath.reference) = false)
    by (vm_compute; reflexivity).
  destruct (@build_font RefMath.reference) as [font|e] eqn:E; [|discriminate Hr].
  pose proof (proj1 (@C8_glyph_order_and_cmap RefMath.reference font E)) as Hord.
  split; [exact Hord|]. rewrite Hord. reflexivity.
Defined.

(** ** Glyph names round-trip *)

Lemma string_app_cons (x : ascii) (a b : string) :
  String x a +:+ b = String x (a +:+ b).
Proof. reflexivity. Qed.

Lemma string_app_nil_r (s : string) : s +:+ "" = s.
Proof.
  induction s as [|c s IH]; [reflexivity|]. by rewrite string_app_cons, IH.
Qed.

Lemma string_app_assoc (a b c : string) : (a +:+ b) +:+ c = a +:+ (b +:+ c).
Proof.
  induction a as [|x a IH]; [reflexivity|]. by rewrite !string_app_cons, IH.
Qed.

Lemma string_length_snoc (s : string) (c : ascii) :
  String.length (s +:+ String c "") = S (String.length s).
Proof.
  induction s as [|x s IH]; [reflexivity|].
  rewrite string_app_cons. cbn [String.length]. by rewrite IH.
Qed.

Lemma hex_value_digit (d : Z) : 0 <= d < 16 -> hex_value (hex_digit d) = Some d.
Proof.
  intros Hd.
  assert (Hc : d = 0 \/ d = 1 \/ d = 2 \/ d = 3 \/ d = 4 \/ d = 5 \/ d = 6 \/
               d = 7 \/ d = 8 \/ d = 9 \/ d = 10 \/ d = 11 \/ d = 12 \/
               d = 13 \/ d = 14 \/ d = 15) by lia.
  repeat (destruct Hc as [->|Hc]; [reflexivity|]). by subst.
Qed.

(** Parsing a string of digits followed by [rest] continues on [rest]
    with the value read so far. *)
Lemma parse_hex_app (ds rest : string) (a : Z) :
  parse_hex (ds +:+ rest) a =
    match parse_hex ds a with
    | Py.Ok v => parse_hex rest v
    | Py.Raise e => Raise e
    end.
Proof.
  revert a. induction ds as [|c ds IH]; intros a; simpl; [reflexivity|].
  destruct (hex_value c); [apply IH | reflexivity].
Qed.

(** The digits written for [n] read back as [n], whatever was read
    before them. *)
Lemma hex_digits_parse (fuel : nat) (n : Z) (acc : string) :
  0 <= n < 16 ^ Z.of_nat fuel ->
  exists ds,
    hex_digits fuel n acc = ds +:+ acc /\
    (fuel <> O -> ds <> "") /\
    forall a, parse_hex ds a = Ok (a * 16 ^ Z.of_nat (String.length ds) + n).
Proof.
  revert n acc. induction fuel as [|fuel IH]; intros n acc Hn.
  - exists "". simpl in *. split; [reflexivity|]. split; [done|].
    intros a. f_equal. lia.
  - cbn [hex_digits].
    assert (Hd : 0 <= n mod 16 < 16) by (apply Z.mod_pos_bound; lia).
    destruct (Z.ltb_spec n 16) as [Hlt|Hge].
    + exists (String (hex_digit (n mod 16)) ""). split; [reflexivity|].
      split; [discriminate|]. intros a. cbn [parse_hex].
      rewrite hex_value_digit by done. cbn [parse_hex String.length].
      rewrite Z.mod_small by lia. f_equal. lia.
    + destruct (IH (n / 16) (String (hex_digit (n mod 16)) acc)) as (ds & Hds & _ & Hp).
      { split; [apply Z.div_pos; lia|].
        apply Z.div_lt_upper_bound; [lia|].
        rewrite Nat2Z.inj_succ, Z.pow_succ_r in Hn by lia. lia. }
      exists (ds +:+ String (hex_digit (n mod 16)) "").
      split; [by rewrite Hds, string_app_assoc|].
      split; [intros _; destruct ds; discriminate|].
      intros a. rewrite parse_hex_app, Hp. cbn [parse_hex].
      rewrite hex_value_digit by done. f_equal.
      rewrite string_length_snoc, Nat2Z.inj_succ, Z.pow_succ_r by lia.
      pose proof (Z.div_mod n 16 ltac:(lia)). lia.
Qed.

Lemma parse_hex_zeros (k : nat) (s : string) : parse_hex (zeros k +:+ s) 0 = parse_hex s 0.
Proof. induction k as [|k IH]; simpl; [reflexivity | exact IH]. Qed.

Lemma hex_upper_parse (n : Z) :
  0 <= n -> hex_upper n <> "" /\ parse_hex (hex_upper n) 0 = Ok n.
Proof.
  intros Hn. unfold hex_upper.
  destruct (hex_digits_parse (S (Z.to_nat (Z.log2 n))) n "") as (ds & Hds & Hne & Hp).
  - split; [done|].
    rewrite Nat2Z.inj_succ, Z2Nat.id by apply Z.log2_nonneg.
    destruct (Z.eq_dec n 0) as [->|Hz]; [reflexivity|].
    pose proof (Z.log2_spec n ltac:(lia)) as [_ Hlog].
    eapply Z.lt_le_trans; [exact Hlog|].
    apply Z.pow_le_mono_l. lia.
  - rewrite Hds, string_app_nil_r. split; [by apply Hne|]. rewrite Hp. f_equal; lia.
Qed.

Lemma glyph_name_parses (n : Z) :
  0 <= n ->
  slice_from 3 (uni_name n) = format_04X n /\
  int16 (format_04X n) = Ok n /\
  int16 (slice_from 3 (uni_name n)) = Ok n.
Proof.
  intros Hn. assert (Hs : slice_from 3 (uni_name n) = format_04X n) by reflexivity.
  split; [exact Hs|]. rewrite Hs.
  assert (int16 (format_04X n) = Ok n); [|done].
  unfold format_04X. destruct (Z.ltb_spec n 0) as [|_]; [lia|].
  destruct (hex_upper_parse n Hn) as [Hne Hp].
  unfold int16.
  destruct (zeros _ +:+ hex_upper n) eqn:E.
  - destruct (4 - String.length (hex_upper n))%nat; simpl in E; [done | discriminate].
  - rewrite <- E, parse_hex_zeros. exact Hp.
Qed.

(** X1. The glyph name written for a codepoint reads back as that
    codepoint: for every n >= 0, [int(f"uni{n:04X}"[3:], 16) = n]. *)
Theorem glyph_name_roundtrip (n : Z) :
  0 <= n ->
  slice_from 3 (uni_name n) = format_04X n /\
  int16 (format_04X n) = Ok n /\
  int16 (slice_from 3 (uni_name n)) = Ok n.
Proof. apply glyph_name_parses. Qed.

Lemma glyph_name_roundtrip_witness :
  0 <= 0xE10A /\ int16 (slice_from 3 (uni_name 0xE10A)) = Ok 0xE10A.
Proof.
  split; [lia|]. exact (proj2 (proj2 (glyph_name_roundtrip 0xE10A ltac:(lia)))).
Defined.

(** X2. Distinct codepoints get distinct glyph names. *)
Theorem uni_name_injective (m n : Z) :
  0 <= m -> 0 <= n -> m <> n -> uni_name m <> uni_name n.
Proof.
  intros Hm Hn Hne E. apply Hne.
  pose proof (proj2 (proj2 (glyph_name_parses m Hm))) as H1.
  pose proof (proj2 (proj2 (glyph_name_parses n Hn))) as H2.
  rewrite E in H1. rewrite H1 in H2. by injection H2.
Qed.

Lemma uni_name_injective_witness :
  0 <= 0xE000 /\ 0 <= 0xE100 /\ 0xE000 <> 0xE100 /\
  uni_name 0xE000 <> uni_name 0xE100.
Proof.
  split; [lia|]. split; [lia|]. split; [lia|].
  exact (uni_name_injective 0xE000 0xE100 ltac:(lia) ltac:(lia) ltac:(lia)).
Defined.

(** ** Drawing routines append whole subpaths *)

Lemma split_subpaths_app (c1 c2 : list PathCommand) cur (s1 : list Subpath) :
  split_subpaths c1 cur = Some s1 ->
  split_subpaths (c1 ++ c2) cur = (fun s2 => s1 ++ s2) <$> split_subpaths c2 None.
Proof.
  revert cur s1. induction c1 as [|c c1 IH]; intros cur s1; simpl.
  - destruct cur; [discriminate|]. intros [= <-].
    by destruct (split_subpaths c2 None).
  - destruct c, cur as [[s segs]|]; try discriminate; try apply IH.
    + destruct (split_subpaths c1 None) as [s1'|] eqn:E1; [|discriminate].
      intros [= <-]. rewrite (IH None s1' E1).
      by destruct (split_subpaths c2 None).
    + destruct (split_subpaths c1 None) as [s1'|] eqn:E1; [|discriminate].
      intros [= <-]. rewrite (IH None s1' E1).
      by destruct (split_subpaths c2 None).
Qed.

Lemma safe_ret {A} (a : A) : safe None (mret a : Draw A).
Proof. exists (Ok a), []. split; [intros pen; by rewrite emit_nil | by eexists]. Qed.

Lemma safe_lift {A} (r : Py.result A) : safe None (lift r).
Proof. exists r, []. split; [intros pen; by rewrite emit_nil | by eexists]. Qed.

(** Sequencing two routines that each start and end between subpaths. *)
Lemma safe_bind {A B} (m : Draw A) (f : A -> Draw B) :
  safe None m -> (forall a, safe None (f a)) -> safe None (m ≫= f).
Proof.
  intros (r & c1 & Hm & [s1 H1]) Hf. destruct r as [a|e].
  - destruct (Hf a) as (r2 & c2 & Hf2 & [s2 H2]).
    exists r2, (c1 ++ c2). split.
    + intros pen. cbv [mbind Draw_bind bind]. by rewrite Hm, Hf2, emit_emit.
    + rewrite (split_subpaths_app _ _ _ _ H1), H2. by eexists.
  - exists (Raise e), c1. split; [|by eexists].
    intros pen. cbv [mbind Draw_bind bind]. by rewrite Hm.
Qed.

(** A command followed by the rest of the routine. *)
Lemma safe_step {B} (c : PathCommand) (op : Draw unit) (f : unit -> Draw B) cur cur' :
  (forall pen, op pen = (Ok tt, emit pen [c])) ->
  (forall rest, is_Some (split_subpaths rest cur') ->
                is_Some (split_subpaths (c :: rest) cur)) ->
  safe cur' (f tt) -> safe cur (op ≫= f).
Proof.
  intros Hop Hc (r & cmds & Hf & Hs). exists r, (c :: cmds). split; [|by apply Hc].
  intros pen. cbv [mbind Draw_bind bind]. by rewrite Hop, Hf, emit_emit.
Qed.

Lemma safe_moveTo {B} p (f : unit -> Draw B) :
  safe (Some (p, [])) (f tt) -> safe None (moveTo p ≫= f).
Proof. apply (safe_step (MoveTo p)); [done|]. by intros rest Hs. Qed.

Lemma safe_lineTo {B} p s segs (f : unit -> Draw B) :
  safe (Some (s, segs ++ [Line p])) (f tt) -> safe (Some (s, segs)) (lineTo p ≫= f).
Proof. apply (safe_step (LineTo p)); [done|]. by intros rest Hs. Qed.

Lemma safe_curveTo {B} c1 c2 p s segs (f : unit -> Draw B) :
  safe (Some (s, segs ++ [Curve c1 c2 p])) (f tt) ->
  safe (Some (s, segs)) (curveTo c1 c2 p ≫= f).
Proof. apply (safe_step (CurveTo c1 c2 p)); [done|]. by intros rest Hs. Qed.

Lemma safe_closePath_then {B} c (f : unit -> Draw B) :
  safe None (f tt) -> safe (Some c) (closePath ≫= f).
Proof.
  destruct c as [s segs]. apply (safe_step ClosePath); [done|].
  intros rest [sps Hs]. simpl. rewrite Hs. by eexists.
Qed.

Lemma safe_endPath_then {B} c (f : unit -> Draw B) :
  safe None (f tt) -> safe (Some c) (endPath ≫= f).
Proof.
  destruct c as [s segs]. apply (safe_step EndPath); [done|].
  intros rest [sps Hs]. simpl. rewrite Hs. by eexists.
Qed.

Lemma safe_closePath c : safe (Some c) closePath.
Proof.
  destruct c as [s segs]. exists (Ok tt), [ClosePath]. split; [done | by eexists].
Qed.

Lemma safe_endPath c : safe (Some c) endPath.
Proof.
  destruct c as [s segs]. exists (Ok tt), [EndPath]. split; [done | by eexists].
Qed.

Lemma safe_for_each {A} (xs : list A) (body : A -> Draw unit) :
  (forall x, safe None (body x)) -> safe None (for_each xs body).
Proof.
  intros Hb. induction xs as [|x xs IH]; simpl.
  - apply (safe_ret tt).
  - apply safe_bind; [apply Hb | intros _; exact IH].
Qed.

Create HintDb safe_draw.
#[global] Hint Resolve safe_lift : safe_draw.

(** Walks through a routine: commands one by one, calls and conversions
    as units. *)
Ltac safe_walk :=
  repeat (cbv beta zeta;
    match goal with
    | |- safe _ (moveTo _ ≫= _) => apply safe_moveTo
    | |- safe _ (lineTo _ ≫= _) => apply safe_lineTo
    | |- safe _ (curveTo _ _ _ ≫= _) => apply safe_curveTo
    | |- safe _ (closePath ≫= _) => apply safe_closePath_then
    | |- safe _ (endPath ≫= _) => apply safe_endPath_then
    | |- safe _ closePath => apply safe_closePath
    | |- safe _ endPath => apply safe_endPath
    | |- safe _ (lift _) => apply safe_lift
    | |- safe _ (mret _) => apply safe_ret
    | |- safe _ (for_each _ _) => apply safe_for_each; intros ?
    | |- safe None (_ ≫= _) =>
        apply safe_bind; [solve [auto with safe_draw] | intros ?]
    | |- safe None _ => solve [auto with safe_draw]
    end).

Lemma safe_triangle_up cx cy size : safe None (triangle_up cx cy size).
Proof. unfold triangle_up. safe_walk. Qed.
Lemma safe_triangle_down cx cy size : safe None (triangle_down cx cy size).
Proof. unfold triangle_down. safe_walk. Qed.
Lemma safe_diamond cx cy size : safe None (diamond cx cy size).
Proof. unfold diamond. safe_walk. Qed.
Lemma safe_circle cx cy r : safe None (circle cx cy r).
Proof. unfold circle. safe_walk. Qed.
Lemma safe_arc_left cx cy size : safe None (arc_left cx cy size).
Proof. unfold arc_left. safe_walk. Qed.
Lemma safe_arc_right cx cy size : safe None (arc_right cx cy size).
Proof. unfold arc_right. safe_walk. Qed.
Lemma safe_arrow_right cx cy size : safe None (arrow_right cx cy size).
Proof. unfold arrow_right. safe_walk. Qed.
Lemma safe_arrow_up cx cy size : safe None (arrow_up cx cy size).
Proof. unfold arrow_up. safe_walk. Qed.
Lemma safe_arrow_down cx cy size : safe None (arrow_down cx cy size).
Proof. unfold arrow_down. safe_walk. Qed.
Lemma safe_box_rect x y w h : safe None (box_rect x y w h).
Proof. unfold box_rect. safe_walk. Qed.
Lemma safe_wave cx cy size : safe None (wave cx cy size).
Proof. unfold wave. safe_walk. Qed.

#[global] Hint Resolve safe_triangle_up safe_triangle_down safe_diamond safe_circle
  safe_arc_left safe_arc_right safe_arrow_right safe_arrow_up safe_arrow_down
  safe_box_rect safe_wave : safe_draw.

Lemma safe_cross cx cy size : safe None (cross cx cy size).
Proof. unfold cross. safe_walk. Qed.
Lemma safe_dot_glyph cx cy size : safe None (dot_glyph cx cy size).
Proof. unfold dot_glyph. auto with safe_draw. Qed.
Lemma safe_house cx cy size : safe None (house cx cy size).
Proof. unfold house. safe_walk. Qed.
Lemma safe_pillar cx cy size : safe None (pillar cx cy size).
Proof. unfold pillar. safe_walk. Qed.
Lemma safe_person cx cy size : safe None (person cx cy size).
Proof. unfold person. safe_walk. Qed.

#[global] Hint Resolve safe_cross safe_dot_glyph safe_house safe_pillar safe_person
  : safe_draw.

Section SafeDispatch.
Context `{Math}.

Lemma safe_star_5 cx cy outer_r inner_r : safe None (star_5 cx cy outer_r inner_r).
Proof.
  unfold star_5. apply safe_bind; [apply safe_lift|]. intros [|p0 rest].
  - apply safe_lift.
  - exists (Ok tt), (MoveTo p0 :: (LineTo <$> rest) ++ [ClosePath]). split.
    + intros pen. cbv [mbind Draw_bind bind moveTo closePath].
      by rewrite for_each_lineTo, !emit_emit.
    + simpl. rewrite (split_polyline rest p0 [] true). by eexists.
Qed.

Lemma safe_sun_ray cx cy sz i : safe None (sun_ray cx cy sz i).
Proof. unfold sun_ray. safe_walk. Qed.

Lemma draw_glyph_safe (glyph_name : string) : safe None (draw_glyph glyph_name).
Proof.
  pose proof safe_star_5. pose proof safe_sun_ray.
  unfold draw_glyph. cbv zeta.
  repeat match goal with
         | |- safe None (if ?b then _ else _) => destruct b
         end;
    solve [safe_walk].
Qed.

End SafeDispatch.

Section DispatchInvariants.
Context `{Math}.

(** X3. Whatever the name and the [math] implementation, the dispatch has
    one outcome and one command sequence for all pens, it only appends
    that sequence to the pen, and the sequence consists of whole subpaths,
    also when the drawing raises part-way. *)
Theorem draw_glyph_appends_whole_subpaths (glyph_name : string) :
  exists (r : Py.result unit) (cmds : list PathCommand) (sps : list Subpath),
    (forall pen, draw_glyph glyph_name pen = (r, emit pen cmds)) /\
    (forall pen, pen_width (draw_glyph glyph_name pen).2 = pen_width pen) /\
    subpaths cmds = Some sps.
Proof.
  destruct (draw_glyph_safe glyph_name) as (r & cmds & Hrun & [sps Hs]).
  exists r, cmds, sps. split; [exact Hrun|]. split; [|exact Hs].
  intros pen. by rewrite Hrun.
Qed.

Lemma fits_cell_registered :
  Forall (fun n => n ∈ trig_names \/ fits_cell n = true) registered_names.
Proof. apply (bool_decide_unpack _). by vm_compute. Qed.

Lemma fits_cell_all (glyph_name : string) :
  glyph_name ∉ trig_names -> fits_cell glyph_name = true.
Proof.
  intros Hn. pose proof fits_cell_registered as Hall.
  rewrite Forall_forall in Hall.
  destruct (decide (glyph_name ∈ registered_names)) as [Hr|Hr].
  - destruct (Hall glyph_name Hr) as [Ht|Hf]; [done | exact Hf].
  - unfold fits_cell. rewrite (draw_glyph_unregistered _ _ Hr). reflexivity.
Qed.

Lemma draw_glyph_in_cell (glyph_name : string) (pen : T2Pen) :
  glyph_name ∉ ["prov:discovered"; "rad:sun"; "rad:star"] ->
  exists cmds,
    draw_glyph glyph_name pen = (Ok tt, emit pen cmds) /\
    forall c p, c ∈ cmds -> p ∈ cmd_points c ->
                M <= p.1 <= M + W /\ 0 <= p.2 <= H.
Proof.
  intros Hn. pose proof (fits_cell_all glyph_name Hn) as Hf.
  destruct (draw_glyph_safe glyph_name) as (r & cmds & Hrun & _).
  unfold fits_cell in Hf. rewrite Hrun in Hf. cbn [emit pen_program pen_width app] in Hf.
  destruct r as [[]|e]; [|discriminate].
  exists cmds. split; [apply Hrun|].
  intros c p Hc Hp. rewrite forallb_forall in Hf.
  apply list_elem_of_In in Hc, Hp.
  specialize (Hf c Hc). rewrite forallb_forall in Hf. specialize (Hf p Hp).
  unfold in_usable_area in Hf. lia.
Qed.

(** X4. Except for the three glyphs drawn with [math.cos] and [math.sin],
    the dispatch never raises, whatever the name, and every point it
    emits, control points included, lies in the usable area of the cell:
    M <= x <= M + W and 0 <= y <= H. *)
Theorem draw_glyph_stays_in_cell (glyph_name : string) (pen : T2Pen) :
  glyph_name ∉ ["prov:discovered"; "rad:sun"; "rad:star"] ->
  exists cmds,
    draw_glyph glyph_name pen = (Ok tt, emit pen cmds) /\
    forall c p, c ∈ cmds -> p ∈ cmd_points c ->
                M <= p.1 <= M + W /\ 0 <= p.2 <= H.
Proof. apply draw_glyph_in_cell. Qed.

End DispatchInvariants.

Lemma draw_glyph_stays_in_cell_witness :
  ("rad:mountain" ∉ ["prov:discovered"; "rad:sun"; "rad:star"]) /\
  exists cmds,
    @draw_glyph RefMath.reference "rad:mountain" (mkPen 600 []) =
      (Ok tt, emit (mkPen 600 []) cmds) /\
    forall c p, c ∈ cmds -> p ∈ cmd_points c ->
                M <= p.1 <= M + W /\ 0 <= p.2 <= H.
Proof.
  assert (Hn : "rad:mountain" ∉ ["prov:discovered"; "rad:sun"; "rad:star"])
    by (apply (bool_decide_unpack _); vm_compute; exact I).
  split; [exact Hn|].
  exact (@draw_glyph_stays_in_cell RefMath.reference "rad:mountain" (mkPen 600 []) Hn).
Defined.

(** ** Translations and reflections of the primitives *)

Lemma moved_bind {A B} g (m m' : Draw A) (f f' : A -> Draw B) :
  moved g m m' -> (forall a, moved g (f a) (f' a)) -> moved g (m ≫= f) (m' ≫= f').
Proof.
  intros (r & c1 & Hm & Hm') Hf. destruct r as [a|e].
  - destruct (Hf a) as (r2 & c2 & Hf2 & Hf2').
    exists r2, (c1 ++ c2). split; intros pen; cbv [mbind Draw_bind bind].
    + by rewrite Hm, Hf2, emit_emit.
    + by rewrite Hm', Hf2', emit_emit, fmap_app.
  - exists (Raise e), c1. split; intros pen; cbv [mbind Draw_bind bind].
    + by rewrite Hm.
    + by rewrite Hm'.
Qed.

Lemma moved_lift {A} g (r : Py.result A) : moved g (lift r) (lift r).
Proof. exists r, []. split; intros pen; by rewrite emit_nil. Qed.

Lemma moved_moveTo g p p' : p' = g p -> moved g (moveTo p) (moveTo p').
Proof. intros ->. by exists (Ok tt), [MoveTo p]. Qed.

Lemma moved_lineTo g p p' : p' = g p -> moved g (lineTo p) (lineTo p').
Proof. intros ->. by exists (Ok tt), [LineTo p]. Qed.

Lemma moved_curveTo g c1 c2 p c1' c2' p' :
  c1' = g c1 -> c2' = g c2 -> p' = g p ->
  moved g (curveTo c1 c2 p) (curveTo c1' c2' p').
Proof. intros -> -> ->. by exists (Ok tt), [CurveTo c1 c2 p]. Qed.

Lemma moved_closePath g : moved g closePath closePath.
Proof. by exists (Ok tt), [ClosePath]. Qed.

Lemma moved_endPath g : moved g endPath endPath.
Proof. by exists (Ok tt), [EndPath]. Qed.

Lemma moved_for_each_lineTo g (ps : list Point) :
  moved g (for_each ps lineTo) (for_each (g <$> ps) lineTo).
Proof.
  exists (Ok tt), (LineTo <$> ps). split; intros pen; rewrite for_each_lineTo; [done|].
  by rewrite <- !list_fmap_compose.
Qed.

Create HintDb moved_draw.
#[global] Hint Resolve moved_lift moved_closePath moved_endPath : moved_draw.

(** Walks through two routines side by side; the points are compared by
    arithmetic. *)
Ltac moved_point :=
  cbv [translate flip_vertical flip_horizontal fst snd]; f_equal; lia.

Ltac moved_walk :=
  repeat (cbv beta zeta;
    match goal with
    | |- moved _ (moveTo _) (moveTo _) => apply moved_moveTo; moved_point
    | |- moved _ (lineTo _) (lineTo _) => apply moved_lineTo; moved_point
    | |- moved _ (curveTo _ _ _) (curveTo _ _ _) =>
        apply moved_curveTo; moved_point
    | |- moved _ (_ ≫= _) (_ ≫= _) => apply moved_bind; [|intros ?]
    | |- moved _ _ _ => solve [auto with moved_draw]
    end).

Section Translation.
Variables dx dy : Z.
Local Abbreviation shifted := (moved (translate dx dy)).

Lemma shifted_triangle_up cx cy size :
  shifted (triangle_up cx cy size) (triangle_up (cx + dx) (cy + dy) size).
Proof. unfold triangle_up. moved_walk. Qed.
Lemma shifted_triangle_down cx cy size :
  shifted (triangle_down cx cy size) (triangle_down (cx + dx) (cy + dy) size).
Proof. unfold triangle_down. moved_walk. Qed.
Lemma shifted_diamond cx cy size :
  shifted (diamond cx cy size) (diamond (cx + dx) (cy + dy) size).
Proof. unfold diamond. moved_walk. Qed.
Lemma shifted_circle cx cy r :
  shifted (circle cx cy r) (circle (cx + dx) (cy + dy) r).
Proof. unfold circle. moved_walk. Qed.
Lemma shifted_arc_left cx cy size :
  shifted (arc_left cx cy size) (arc_left (cx + dx) (cy + dy) size).
Proof. unfold arc_left. moved_walk. Qed.
Lemma shifted_arc_right cx cy size :
  shifted (arc_right cx cy size) (arc_right (cx + dx) (cy + dy) size).
Proof. unfold arc_right. moved_walk. Qed.
Lemma shifted_arrow_right cx cy size :
  shifted (arrow_right cx cy size) (arrow_right (cx + dx) (cy + dy) size).
Proof. unfold arrow_right. moved_walk. Qed.
Lemma shifted_arrow_up cx cy size :
  shifted (arrow_up cx cy size) (arrow_up (cx + dx) (cy + dy) size).
Proof. unfold arrow_up. moved_walk. Qed.
Lemma shifted_arrow_down cx cy size :
  shifted (arrow_down cx cy size) (arrow_down (cx + dx) (cy + dy) size).
Proof. unfold arrow_down. moved_walk. Qed.
Lemma shifted_box_rect x y w h :
  shifted (box_rect x y w h) (box_rect (x + dx) (y + dy) w h).
Proof. unfold box_rect. moved_walk. Qed.
Lemma shifted_wave cx cy size :
  shifted (wave cx cy size) (wave (cx + dx) (cy + dy) size).
Proof. unfold wave. moved_walk. Qed.

Lemma shifted_box_rect' x y x' y' w h :
  x' = x + dx -> y' = y + dy -> shifted (box_rect x y w h) (box_rect x' y' w h).
Proof. intros -> ->. apply shifted_box_rect. Qed.
Lemma shifted_triangle_up' cx cy cx' cy' size :
  cx' = cx + dx -> cy' = cy + dy ->
  shifted (triangle_up cx cy size) (triangle_up cx' cy' size).
Proof. intros -> ->. apply shifted_triangle_up. Qed.
Lemma shifted_circle' cx cy cx' cy' r :
  cx' = cx + dx -> cy' = cy + dy -> shifted (circle cx cy r) (circle cx' cy' r).
Proof. intros -> ->. apply shifted_circle. Qed.

Ltac shifted_walk :=
  repeat (cbv beta zeta;
    match goal with
    | |- moved _ (box_rect _ _ _ _) (box_rect _ _ _ _) =>
        apply shifted_box_rect'; lia
    | |- moved _ (triangle_up _ _ _) (triangle_up _ _ _) =>
        apply shifted_triangle_up'; lia
    | |- moved _ (circle _ _ _) (circle _ _ _) => apply shifted_circle'; lia
    | |- moved _ (_ ≫= _) (_ ≫= _) => apply moved_bind; [|intros ?]
    end);
  moved_walk.

Lemma shifted_cross cx cy size :
  shifted (cross cx cy size) (cross (cx + dx) (cy + dy) size).
Proof. unfold cross. shifted_walk. Qed.
Lemma shifted_dot_glyph cx cy size :
  shifted (dot_glyph cx cy size) (dot_glyph (cx + dx) (cy + dy) size).
Proof. apply shifted_circle. Qed.
Lemma shifted_house cx cy size :
  shifted (house cx cy size) (house (cx + dx) (cy + dy) size).
Proof. unfold house. shifted_walk. Qed.
Lemma shifted_pillar cx cy size :
  shifted (pillar cx cy size) (pillar (cx + dx) (cy + dy) size).
Proof. unfold pillar. shifted_walk. Qed.
Lemma shifted_person cx cy size :
  shifted (person cx cy size) (person (cx + dx) (cy + dy) size).
Proof. unfold person. shifted_walk. Qed.

Lemma shifted_star_point `{Math} cx cy outer_r inner_r (i : Z) :
  star_point (cx + dx) (cy + dy) outer_r inner_r i =
    Py.bind (star_point cx cy outer_r inner_r i) (fun p => Ok (translate dx dy p)).
Proof.
  unfold star_point. cbv [mbind Py.result_bind Py.bind].
  destruct (star_angle i) as [angle|e]; [|reflexivity].
  destruct (int_of_scaled _ (math_cos angle)) as [vx|e]; [|reflexivity].
  destruct (int_of_scaled _ (math_sin angle)) as [vy|e]; [|reflexivity].
  unfold translate. simpl. do 2 f_equal; lia.
Qed.

Lemma shifted_star_points `{Math} cx cy outer_r inner_r (l : list Z) :
  Py.mapM (star_point (cx + dx) (cy + dy) outer_r inner_r) l =
    Py.bind (Py.mapM (star_point cx cy outer_r inner_r) l)
      (fun ps => Ok (translate dx dy <$> ps)).
Proof.
  induction l as [|i l IH]; [reflexivity|].
  cbn [Py.mapM]. rewrite shifted_star_point, IH.
  cbv [mbind Py.result_bind Py.bind].
  destruct (star_point cx cy outer_r inner_r i) as [p|e]; [|reflexivity].
  by destruct (Py.mapM (star_point cx cy outer_r inner_r) l).
Qed.

Lemma shifted_star_5 `{Math} cx cy outer_r inner_r :
  shifted (star_5 cx cy outer_r inner_r) (star_5 (cx + dx) (cy + dy) outer_r inner_r).
Proof.
  unfold star_5. rewrite shifted_star_points.
  destruct (Py.mapM (star_point cx cy outer_r inner_r) (range 10)) as [[|p0 rest]|e].
  - exists (Raise Py.IndexError), []. split; intros pen; by rewrite emit_nil.
  - change (moved (translate dx dy)
              (moveTo p0 ≫= (fun _ => for_each rest lineTo ≫= (fun _ => closePath)))
              (moveTo (translate dx dy p0) ≫=
                 (fun _ => for_each (translate dx dy <$> rest) lineTo ≫=
                    (fun _ => closePath)))).
    apply moved_bind; [by apply moved_moveTo|intros ?].
    apply moved_bind; [apply moved_for_each_lineTo|intros ?]. apply moved_closePath.
  - exists (Raise e), []. split; intros pen; by rewrite emit_nil.
Qed.

End Translation.

(** X5. Every primitive and every composite is placed by its center (the
    rectangle by its corner) and by nothing else: moving the center by
    (dx, dy) gives the same outcome and the same outline moved by
    (dx, dy). *)
Theorem shapes_translate `{Math}
    (dx dy cx cy size x y w h r outer_r inner_r : Z) :
  let g := translate dx dy in
  moved g (triangle_up cx cy size) (triangle_up (cx + dx) (cy + dy) size) /\
  moved g (triangle_down cx cy size) (triangle_down (cx + dx) (cy + dy) size) /\
  moved g (diamond cx cy size) (diamond (cx + dx) (cy + dy) size) /\
  moved g (circle cx cy r) (circle (cx + dx) (cy + dy) r) /\
  moved g (arc_left cx cy size) (arc_left (cx + dx) (cy + dy) size) /\
  moved g (arc_right cx cy size) (arc_right (cx + dx) (cy + dy) size) /\
  moved g (arrow_right cx cy size) (arrow_right (cx + dx) (cy + dy) size) /\
  moved g (arrow_up cx cy size) (arrow_up (cx + dx) (cy + dy) size) /\
  moved g (arrow_down cx cy size) (arrow_down (cx + dx) (cy + dy) size) /\
  moved g (box_rect x y w h) (box_rect (x + dx) (y + dy) w h) /\
  moved g (star_5 cx cy outer_r inner_r)
          (star_5 (cx + dx) (cy + dy) outer_r inner_r) /\
  moved g (cross cx cy size) (cross (cx + dx) (cy + dy) size) /\
  moved g (wave cx cy size) (wave (cx + dx) (cy + dy) size) /\
  moved g (dot_glyph cx cy size) (dot_glyph (cx + dx) (cy + dy) size) /\
  moved g (house cx cy size) (house (cx + dx) (cy + dy) size) /\
  moved g (pillar cx cy size) (pillar (cx + dx) (cy + dy) size) /\
  moved g (person cx cy size) (person (cx + dx) (cy + dy) size).
Proof.
  intros g. unfold g.
  repeat split;
    auto using shifted_triangle_up, shifted_triangle_down, shifted_diamond,
      shifted_circle, shifted_arc_left, shifted_arc_right, shifted_arrow_right,
      shifted_arrow_up, shifted_arrow_down, shifted_box_rect, shifted_star_5,
      shifted_cross, shifted_wave, shifted_dot_glyph, shifted_house,
      shifted_pillar, shifted_person.
Qed.

(** X6. The downward triangle and the down arrow are the upward ones
    reflected in the horizontal line through the center; the right arc is
    the left arc reflected in the vertical line through the center. The
    glyphs drawn with them mirror each other in the cell: [contains] and
    [part-of], [parent-of] and [child-of], [struct:end] and
    [struct:triple]. *)
Theorem mirrored_shapes `{Math} (cx cy size : Z) :
  moved (flip_vertical cy) (triangle_up cx cy size) (triangle_down cx cy size) /\
  moved (flip_vertical cy) (arrow_up cx cy size) (arrow_down cx cy size) /\
  moved (flip_horizontal cx) (arc_left cx cy size) (arc_right cx cy size) /\
  moved (flip_horizontal CX) (draw_glyph "part-of") (draw_glyph "contains") /\
  moved (flip_vertical CY) (draw_glyph "child-of") (draw_glyph "parent-of") /\
  moved (flip_horizontal CX) (draw_glyph "struct:triple") (draw_glyph "struct:end").
Proof.
  assert (Hv : forall cx cy size,
             moved (flip_vertical cy) (arrow_up cx cy size) (arrow_down cx cy size)).
  { intros. unfold arrow_up, arrow_down. moved_walk. }
  assert (Hh : forall cx cy size,
             moved (flip_horizontal cx) (arc_left cx cy size) (arc_right cx cy size)).
  { intros. unfold arc_left, arc_right. moved_walk. }
  split; [unfold triangle_up, triangle_down; moved_walk|].
  split; [apply Hv|]. split; [apply Hh|].
  split; [exact (Hh CX CY SZ)|]. split; [exact (Hv CX CY SZ)|].
  change (draw_glyph "struct:triple") with
    (moveTo (CX + SZ / 2 / 2, CY + SZ / 2) ≫= fun _ =>
     lineTo (CX - SZ / 2 / 2, CY) ≫= fun _ =>
     lineTo (CX + SZ / 2 / 2, CY - SZ / 2) ≫= fun _ => endPath).
  change (draw_glyph "struct:end") with
    (moveTo (CX - SZ / 2 / 2, CY + SZ / 2) ≫= fun _ =>
     lineTo (CX + SZ / 2 / 2, CY) ≫= fun _ =>
     lineTo (CX - SZ / 2 / 2, CY - SZ / 2) ≫= fun _ => endPath).
  moved_walk.
Qed.

(** X7. The filled shapes beside those of C9 close every subpath too.
    The three arrows, the house and the pillar always draw closed
    subpaths. For the circle the conversion [int(k * r)] decides: when it
    returns [kr] the circle emits its four-curve outline with the offset
    [kr], one closed subpath, and when it raises the circle raises the same
    exception and the pen is untouched. The dot (a circle of radius
    [size // 6]) and the person (that circle as head at
    [(cx, cy + size // 3)], then a closed triangle) follow the conversion
    of [size // 6] in the same way. On the font grid, a radius of
    magnitude at most 32768, the conversion returns the truncated quotient
    and so the circle, the dot and the person do draw closed subpaths. *)
Theorem other_shapes_closed (cx cy size r : Z) (pen : T2Pen) :
  draws true (arrow_right cx cy size) pen /\
  draws true (arrow_up cx cy size) pen /\
  draws true (arrow_down cx cy size) pen /\
  draws true (house cx cy size) pen /\
  draws true (pillar cx cy size) pen /\
  match int_of_product circle_k r with
  | Py.Ok kr =>
      circle cx cy r pen = (Ok tt, emit pen (circle_path cx cy r kr)) /\
      draws true (circle cx cy r) pen
  | Py.Raise e => circle cx cy r pen = (Raise e, pen)
  end /\
  match int_of_product circle_k (size / 6) with
  | Py.Ok kr =>
      dot_glyph cx cy size pen =
        (Ok tt, emit pen (circle_path cx cy (size / 6) kr)) /\
      draws true (dot_glyph cx cy size) pen /\
      person cx cy size pen = (Ok tt, emit pen (person_path cx cy size kr)) /\
      draws true (person cx cy size) pen
  | Py.Raise e =>
      dot_glyph cx cy size pen = (Raise e, pen) /\
      person cx cy size pen = (Raise e, pen)
  end /\
  (- 32768 <= r <= 32768 ->
   int_of_product circle_k r = Ok (Z.quot (5522847498 * r) 10000000000) /\
   draws true (circle cx cy r) pen) /\
  (- 32768 <= size / 6 <= 32768 ->
   int_of_product circle_k (size / 6) =
     Ok (Z.quot (5522847498 * (size / 6)) 10000000000) /\
   draws true (dot_glyph cx cy size) pen /\
   draws true (person cx cy size) pen).
Proof.
  assert (Hc : forall cx cy r kr,
             int_of_product circle_k r = Ok kr ->
             circle cx cy r pen = (Ok tt, emit pen (circle_path cx cy r kr)) /\
             draws true (circle cx cy r) pen).
  { intros cx0 cy0 r0 kr E. pose proof (circle_run cx0 cy0 r0 pen) as Hrun.
    rewrite E in Hrun. split; [exact Hrun|]. solve_draws. }
  assert (Hp : forall kr,
             int_of_product circle_k (size / 6) = Ok kr ->
             person cx cy size pen = (Ok tt, emit pen (person_path cx cy size kr)) /\
             draws true (person cx cy size) pen).
  { intros kr E. pose proof (person_run cx cy size pen) as Hrun.
    rewrite E in Hrun. split; [exact Hrun|].
    eexists; eexists. split; [exact Hrun|].
    split; [reflexivity|]. split; [discriminate|]. by repeat constructor. }
  split; [unfold arrow_right|split; [unfold arrow_up|split; [unfold arrow_down|
    split; [unfold house, box_rect, triangle_up|
            split; [unfold pillar, box_rect|]]]]];
    try (eexists; eexists; split; [run_pen; reflexivity|];
         split; [reflexivity|]; split; [discriminate|]; by repeat constructor).
  split.
  { destruct (int_of_product circle_k r) as [kr|e] eqn:E.
    - by apply Hc.
    - pose proof (circle_run cx cy r pen) as Hrun. by rewrite E in Hrun. }
  split.
  { destruct (int_of_product circle_k (size / 6)) as [kr|e] eqn:E.
    - destruct (Hc cx cy (size / 6) kr E) as [H1 H2].
      destruct (Hp kr eq_refl) as [H3 H4]. by repeat split.
    - pose proof (circle_run cx cy (size / 6) pen) as Hrun.
      pose proof (person_run cx cy size pen) as Hrun'.
      rewrite E in Hrun, Hrun'. by split. }
  split.
  - intros Hr. pose proof (circle_offset_on_grid r Hr) as E.
    split; [exact E|]. exact (proj2 (Hc cx cy r _ E)).
  - intros Hr. pose proof (circle_offset_on_grid (size / 6) Hr) as E.
    split; [exact E|].
    split; [exact (proj2 (Hc cx cy (size / 6) _ E)) | exact (proj2 (Hp _ E))].
Qed.

Lemma other_shapes_closed_witness :
  - 32768 <= 50 <= 32768 /\
  draws true (circle 300 300 50) (mkPen 600 []).
Proof.
  split; [lia|].
  destruct (other_shapes_closed 300 300 400 50 (mkPen 600 []))
    as (_ & _ & _ & _ & _ & _ & _ & Hgrid & _).
  exact (proj2 (Hgrid ltac:(lia))).
Defined.

(** X8. The house fits together for every size, odd and negative ones
    included: the base of the roof lies on the line y = cy, which is the
    top edge of the body; base and body end at the same right corner
    (cx + size // 4, cy); the apex is 2 * (size // 4) above that line. *)
Theorem house_roof_rests_on_body (cx cy size : Z) (pen : T2Pen) :
  let half := size / 2 in
  let qtr := size / 4 in
  house cx cy size pen =
    (Ok tt, emit pen [MoveTo (cx - half + qtr, cy - half);
                      LineTo (cx + qtr, cy - half);
                      LineTo (cx + qtr, cy);
                      LineTo (cx - half + qtr, cy);
                      ClosePath;
                      MoveTo (cx, cy + 2 * qtr);
                      LineTo (cx + qtr, cy);
                      LineTo (cx - qtr, cy);
                      ClosePath]).
Proof.
  intros half qtr. subst half qtr.
  rewrite house_run. unfold box_rect_path, triangle_up_path.
  rewrite (Z.div_div size 2 2) by lia. change (2 * 2) with 4.
  cbn [app]. apply (f_equal (fun l => (Ok tt, emit pen l))).
  repeat match goal with
         | |- _ :: _ = _ :: _ => apply (f_equal2 cons)
         | |- MoveTo _ = MoveTo _ => apply (f_equal MoveTo)
         | |- LineTo _ = LineTo _ => apply (f_equal LineTo)
         | |- (_, _) = (_, _) => apply (f_equal2 pair); lia
         | |- _ => reflexivity
         end.
Qed.

(** ** The assembled tables *)

Lemma metrics_lookup {V} (v : V) (names : list string) (m0 : gmap string V) (g : string) :
  fold_left (fun m glyph_name => <[glyph_name := v]> m) names m0 !! g =
    if decide (g ∈ names) then Some v else m0 !! g.
Proof.
  revert m0. induction names as [|n names IH]; intros m0; cbn [fold_left].
  - destruct (decide (g ∈ [])) as [Hin|_]; [by apply elem_of_nil in Hin | done].
  - rewrite IH.
    destruct (decide (g ∈ names)) as [Hin|Hout],
             (decide (g ∈ n :: names)) as [Hin'|Hout']; try done.
    + exfalso. apply Hout'. by right.
    + apply elem_of_cons in Hin' as [->|?]; [|done]. by rewrite lookup_insert_eq.
    + rewrite lookup_insert_ne; [done|]. intros ->. apply Hout'. by left.
Qed.

(** What the first loop of [build_font] makes of the items of the map:
    each codepoint is sent to its glyph name, which is in the glyph order;
    the names are pairwise distinct and so are the values of the
    character map. *)
Lemma named_glyphs_consistent :
  let named := name_glyphs (sorted_items GLYPH_MAP) [".notdef"; "space"]
                 {[ 0x20 := "space" ]} in
  length named.1 = 69%nat /\
  NoDup named.1 /\
  NoDup (map_to_list named.2).*2 /\
  Forall (fun kv : Z * string => kv.2 ∈ named.1) (map_to_list named.2) /\
  Forall (fun kv : Z * string =>
            named.2 !! kv.1 = Some (uni_name kv.1) /\ uni_name kv.1 ∈ named.1)
    GLYPH_MAP_display.
Proof.
  cbv zeta. split; [by vm_compute|].
  repeat split; apply (bool_decide_unpack _); by vm_compute.
Qed.

Section Tables.
Context `{Math}.

Lemma build_font_inv_metrics (font : Font) :
  build_font = Ok font ->
  hmtx font =
    fold_left (fun m glyph_name => <[glyph_name := (ADVANCE_WIDTH, 0)]> m)
      (glyphOrder font) ∅ /\
  unitsPerEm font = UPM /\
  defaultWidthX font = ADVANCE_WIDTH /\
  hhea_ascent font = ASCENT /\
  hhea_descent font = DESCENT.
Proof.
  unfold build_font. cbv [mbind Py.result_bind Py.bind].
  destruct (draw_all _ ∅) as [glyph_dict|e] eqn:E.
  - intros Hf. apply Ok_inj in Hf. subst font.
    cbn [glyphOrder hmtx unitsPerEm defaultWidthX hhea_ascent hhea_descent].
    repeat split; reflexivity.
  - intros Hf. apply Raise_not_Ok in Hf. destruct Hf.
Qed.

(** The pen of a glyph keeps the advance width it was created with. *)
Lemma draw_named_width (glyph_name : string) (cs : CharString) :
  draw_named glyph_name = Ok cs -> cs_width cs = ADVANCE_WIDTH.
Proof.
  unfold draw_named. cbv zeta.
  match goal with
  | |- context [(?run (mkPen ADVANCE_WIDTH []))] =>
      assert (Hs : safe None run); [|set (d := run) in *]
  end.
  { destruct (String.eqb glyph_name ".notdef"); [apply safe_box_rect|].
    destruct (String.eqb glyph_name "space"); [apply (safe_ret tt)|].
    apply safe_bind; [apply safe_lift|]. intros cp. apply draw_glyph_safe. }
  destruct Hs as (r & cmds & Hrun & _). rewrite Hrun.
  cbv [mbind Py.result_bind Py.bind]. cbn [fst snd].
  destruct r as [u|e]; [|intros Hf; by apply Raise_not_Ok in Hf].
  intros Hf. apply Ok_inj in Hf. by subst cs.
Qed.

(** The drawing loop, for the glyph of a codepoint of the map: the name
    is parsed back to the codepoint, the codepoint looked up, and the
    identifier drawn on a fresh pen. *)
Lemma draw_named_uni (c : Z) (name : string) :
  (c, name) ∈ GLYPH_MAP_display ->
  draw_named (uni_name c) =
    Py.bind (draw_glyph name (mkPen ADVANCE_WIDTH [])).1
      (fun _ => Ok (getCharString (draw_glyph name (mkPen ADVANCE_WIDTH [])).2)).
Proof.
  intros Hin. pose proof uni_name_roundtrip as Hall.
  rewrite Forall_forall in Hall. destruct (Hall _ Hin) as (Hparse & Hget & _).
  cbn [fst snd] in Hparse, Hget.
  unfold draw_named. cbv zeta.
  change (String.eqb (uni_name c) ".notdef") with false.
  change (String.eqb (uni_name c) "space") with false. cbv iota.
  cbv [mbind Draw_bind bind lift Py.result_bind]. rewrite Hparse, Hget.
  reflexivity.
Qed.

Lemma GLYPH_MAP_lookup_display (c : Z) (name : string) :
  GLYPH_MAP !! c = Some name -> (c, name) ∈ GLYPH_MAP_display.
Proof.
  intros Hc. rewrite <- GLYPH_MAP_items_perm. by apply GLYPH_MAP_lookup_items.
Qed.

(** X9. The tables of an assembled font agree with one another: 69
    pairwise distinct glyph names; a charstring for each of them and for
    nothing else, each with the advance width 600; the metrics (600, 0)
    for each of them and for nothing else; every value of the character
    map is a glyph of the order, and no two codepoints share a glyph. *)
Theorem build_font_tables_agree (font : Font) :
  build_font = Ok font ->
  length (glyphOrder font) = 69%nat /\
  NoDup (glyphOrder font) /\
  (forall g, is_Some (charStrings font !! g) <-> g ∈ glyphOrder font) /\
  (forall g cs, charStrings font !! g = Some cs -> cs_width cs = ADVANCE_WIDTH) /\
  (forall g, g ∈ glyphOrder font -> hmtx font !! g = Some (ADVANCE_WIDTH, 0)) /\
  (forall g, g ∉ glyphOrder font -> hmtx font !! g = None) /\
  defaultWidthX font = ADVANCE_WIDTH /\
  (forall c g, characterMap font !! c = Some g -> g ∈ glyphOrder font) /\
  (forall c1 c2 g, characterMap font !! c1 = Some g ->
                   characterMap font !! c2 = Some g -> c1 = c2).
Proof.
  intros Hb.
  destruct (build_font_inv font Hb) as (Hord & Hcmap & Hdraw).
  destruct (build_font_inv_metrics font Hb) as (Hm & _ & Hw & _).
  destruct named_glyphs_consistent as (Hlen & Hnd & Hndv & Hvals & _).
  rewrite <- Hord in Hlen, Hnd, Hvals. rewrite <- Hcmap in Hndv, Hvals.
  apply draw_all_spec in Hdraw as [Hout Hin].
  split; [exact Hlen|]. split; [exact Hnd|].
  split.
  { intros g. split.
    - intros Hs. destruct (decide (g ∈ glyphOrder font)) as [|Hn]; [done|].
      rewrite (Hout g Hn), lookup_empty in Hs. by destruct Hs.
    - intros Hg. destruct (Hin g Hg) as (cs & _ & ->). by eexists. }
  split.
  { intros g cs Hg.
    destruct (decide (g ∈ glyphOrder font)) as [Hi|Hn].
    - destruct (Hin g Hi) as (cs' & Hd & Hl). rewrite Hl in Hg.
      injection Hg as <-. by apply (draw_named_width g).
    - by rewrite (Hout g Hn), lookup_empty in Hg. }
  split; [intros g Hg; by rewrite Hm, metrics_lookup, decide_True|].
  split; [intros g Hg; by rewrite Hm, metrics_lookup, decide_False|].
  split; [exact Hw|].
  assert (Hitems : forall c g, characterMap font !! c = Some g ->
                     (c, g) ∈ map_to_list (characterMap font))
    by (intros c g Hc; by apply elem_of_map_to_list).
  split.
  - intros c g Hc%Hitems. rewrite Forall_forall in Hvals. exact (Hvals _ Hc).
  - intros c1 c2 g H1%Hitems H2%Hitems.
    apply list_elem_of_lookup in H1 as [i Hi], H2 as [j Hj].
    assert (i = j) as ->.
    { eapply NoDup_lookup; [exact Hndv| |];
        rewrite list_lookup_fmap; [rewrite Hi|rewrite Hj]; reflexivity. }
    congruence.
Qed.

Lemma glyph_of_codepoint (font : Font) (c : Z) (name : string) :
  build_font = Ok font ->
  GLYPH_MAP !! c = Some name ->
  name ∈ registered_names /\
  characterMap font !! c = Some (uni_name c) /\
  exists pen,
    draw_glyph name (mkPen ADVANCE_WIDTH []) = (Ok tt, pen) /\
    charStrings font !! uni_name c = Some (getCharString pen).
Proof.
  intros Hb Hc%GLYPH_MAP_lookup_display.
  destruct (build_font_inv font Hb) as (Hord & Hcmap & Hdraw).
  destruct named_glyphs_consistent as (_ & _ & _ & _ & Hitems).
  rewrite <- Hord, <- Hcmap in Hitems. rewrite Forall_forall in Hitems.
  destruct (Hitems _ Hc) as [Hcm Hin]. cbn [fst] in Hcm, Hin.
  pose proof uni_name_roundtrip as Hall. rewrite Forall_forall in Hall.
  destruct (Hall _ Hc) as (_ & _ & Hreg). cbn [snd] in Hreg.
  split; [exact Hreg|]. split; [exact Hcm|].
  apply draw_all_spec in Hdraw as [_ Hdrawn].
  destruct (Hdrawn _ Hin) as (cs & Hcs & Hl).
  rewrite (draw_named_uni c name Hc) in Hcs.
  destruct (draw_glyph name (mkPen ADVANCE_WIDTH [])) as [[[]|e] pen] eqn:E;
    cbn [fst snd Py.bind] in Hcs.
  - exists pen. split; [reflexivity|]. apply Ok_inj in Hcs. subst cs. exact Hl.
  - apply Raise_not_Ok in Hcs. destruct Hcs.
Qed.

(** No registered identifier outside the three drawn with [math.cos] and
    [math.sin] leaves the fallback square on a fresh pen. *)
Lemma outline_registered :
  Forall (fun n => n ∈ trig_names \/ outline_of n <> fallback_square)
    registered_names.
Proof. apply (bool_decide_unpack _). by vm_compute. Qed.

(** A star that returned drew eleven commands, the square has five. *)
Lemma star_5_not_square cx cy outer_r inner_r (pen : T2Pen) :
  star_5 cx cy outer_r inner_r (mkPen ADVANCE_WIDTH []) = (Ok tt, pen) ->
  pen_program pen <> fallback_square.
Proof.
  intros Hrun.
  destruct (star_5_run cx cy outer_r inner_r (mkPen ADVANCE_WIDTH []))
    as [[e He]|(p0 & rest & _ & Hlen & Hs)].
  - rewrite He in Hrun. discriminate Hrun.
  - rewrite Hs in Hrun. injection Hrun as <-. intros Heq.
    apply (f_equal length) in Heq.
    cbn [emit pen_program app length] in Heq.
    rewrite length_app, length_fmap, Hlen in Heq. discriminate Heq.
Qed.

(** The sun begins with its disc: the second command is a curve. *)
Lemma sun_not_square (pen : T2Pen) :
  draw_glyph "rad:sun" (mkPen ADVANCE_WIDTH []) = (Ok tt, pen) ->
  pen_program pen <> fallback_square.
Proof.
  change (draw_glyph "rad:sun") with
    (circle CX CY (SZ / 3) ≫= fun _ => for_each (range 8) (sun_ray CX CY SZ)).
  cbv [mbind Draw_bind bind].
  rewrite circle_run, (circle_offset_on_grid (SZ / 3)) by (vm_compute; split; discriminate).
  destruct (safe_for_each (range 8) (sun_ray CX CY SZ) (safe_sun_ray CX CY SZ))
    as (r & cmds & Hrun & _).
  rewrite Hrun, emit_emit. intros Hp Heq.
  apply (f_equal snd) in Hp. cbn [snd] in Hp. subst pen.
  apply (f_equal (fun l => nth 1 l ClosePath)) in Heq.
  cbn [emit pen_program app circle_path nth fallback_square] in Heq.
  discriminate Heq.
Qed.

Lemma registered_not_fallback (name : string) (pen : T2Pen) :
  name ∈ registered_names ->
  draw_glyph name (mkPen ADVANCE_WIDTH []) = (Ok tt, pen) ->
  pen_program pen <> fallback_square.
Proof.
  intros Hreg Hrun.
  destruct (decide (name ∈ trig_names)) as [Ht|Ht].
  - unfold trig_names in Ht.
    apply elem_of_cons in Ht as [->|Ht];
      [exact (star_5_not_square CX CY (SZ / 2) (SZ / 4) pen Hrun)|].
    apply elem_of_cons in Ht as [->|Ht]; [exact (sun_not_square pen Hrun)|].
    apply elem_of_cons in Ht as [->|Ht];
      [exact (star_5_not_square CX CY (SZ / 2) (SZ / 4) pen Hrun)|].
    apply elem_of_nil in Ht. destruct Ht.
  - pose proof outline_registered as Hall. rewrite Forall_forall in Hall.
    destruct (Hall name Hreg) as [Ht'|Hn]; [contradiction|].
    unfold outline_of in Hn. rewrite Hrun in Hn. exact Hn.
Qed.

(** X10. In an assembled font the glyph of a codepoint of the map is the
    outline of the codepoint's own identifier: the identifier is one of
    the dispatch, drawing it on a fresh pen of width 600 returned without
    raising, what it drew is not the fallback square of C3, the
    charstring stored under [uniXXXX] is what that pen holds, and the
    character map sends the codepoint to [uniXXXX]. *)
Theorem font_glyph_of_codepoint (font : Font) (c : Z) (name : string) :
  build_font = Ok font ->
  GLYPH_MAP !! c = Some name ->
  name ∈ registered_names /\
  characterMap font !! c = Some (uni_name c) /\
  exists pen,
    draw_glyph name (mkPen ADVANCE_WIDTH []) = (Ok tt, pen) /\
    pen_program pen <> fallback_square /\
    charStrings font !! uni_name c = Some (getCharString pen).
Proof.
  intros Hb Hc.
  destruct (glyph_of_codepoint font c name Hb Hc) as (Hreg & Hcm & pen & Hrun & Hl).
  split; [exact Hreg|]. split; [exact Hcm|].
  exists pen. split; [exact Hrun|].
  split; [exact (registered_not_fallback name pen Hreg Hrun) | exact Hl].
Qed.

Lemma draw_all_total (glyph_names : list string) :
  Forall (fun g => exists cs, draw_named g = Ok cs) glyph_names ->
  forall d0, exists d, draw_all glyph_names d0 = Ok d.
Proof.
  induction 1 as [|g rest [cs Hcs] _ IH]; intros d0; simpl.
  - by eexists.
  - cbv [mbind Py.result_bind Py.bind]. rewrite Hcs. apply IH.
Qed.

(** A completed drawing loop has drawn the identifier of every codepoint
    of the map without raising. *)
Lemma draw_all_drew (glyph_dict : gmap string CharString) (c : Z) (name : string) :
  draw_all (name_glyphs (sorted_items GLYPH_MAP) [".notdef"; "space"]
              {[ 0x20 := "space" ]}).1 ∅ = Ok glyph_dict ->
  (c, name) ∈ GLYPH_MAP_display ->
  (draw_glyph name (mkPen ADVANCE_WIDTH [])).1 = Ok tt.
Proof.
  intros Hdraw Hc.
  destruct named_glyphs_consistent as (_ & _ & _ & _ & Hitems).
  rewrite Forall_forall in Hitems.
  destruct (Hitems _ Hc) as [_ Hin]. cbn [fst] in Hin.
  apply draw_all_spec in Hdraw as [_ Hdrawn].
  destruct (Hdrawn _ Hin) as (cs & Hcs & _).
  rewrite (draw_named_uni c name Hc) in Hcs.
  destruct (draw_glyph name (mkPen ADVANCE_WIDTH [])) as [[[]|e] pen];
    cbn [fst snd Py.bind] in Hcs |- *.
  - reflexivity.
  - apply Raise_not_Ok in Hcs. destruct Hcs.
Qed.

(** X11. The drawing loop of [build_font], run over the 69 glyph names
    of the first loop, can raise only through the glyphs drawn with
    [math.cos] and [math.sin]: it completes with a charstring dictionary
    exactly when the star ([prov:discovered], [rad:star]) and the sun draw
    without raising on a fresh pen. *)
Theorem drawing_loop_completes_iff :
  (exists glyph_dict,
     draw_all (name_glyphs (sorted_items GLYPH_MAP) [".notdef"; "space"]
                 {[ 0x20 := "space" ]}).1 ∅ = Ok glyph_dict) <->
  (draw_glyph "prov:discovered" (mkPen ADVANCE_WIDTH [])).1 = Ok tt /\
  (draw_glyph "rad:sun" (mkPen ADVANCE_WIDTH [])).1 = Ok tt.
Proof.
  split.
  - intros [glyph_dict Hd].
    assert (Hc1 : (0xE01C, "prov:discovered") ∈ GLYPH_MAP_display)
      by (apply GLYPH_MAP_lookup_display; vm_compute; reflexivity).
    assert (Hc2 : (0xE108, "rad:sun") ∈ GLYPH_MAP_display)
      by (apply GLYPH_MAP_lookup_display; vm_compute; reflexivity).
    split; [exact (draw_all_drew glyph_dict _ _ Hd Hc1)
           | exact (draw_all_drew glyph_dict _ _ Hd Hc2)].
  - intros [Hstar Hsun].
    assert (Hdraws : forall name, name ∈ registered_names ->
              (draw_glyph name (mkPen ADVANCE_WIDTH [])).1 = Ok tt).
    { intros name Hreg. destruct (decide (name ∈ trig_names)) as [Ht|Ht].
      - unfold trig_names in Ht.
        repeat (apply elem_of_cons in Ht as [->|Ht]; [assumption|]).
        apply elem_of_nil in Ht. destruct Ht.
      - destruct (draw_glyph_in_cell name (mkPen ADVANCE_WIDTH []) Ht)
          as (cmds & -> & _). reflexivity. }
    apply draw_all_total.
    rewrite named_glyphs_order, GLYPH_MAP_items_sorted.
    constructor;
      [exists (mkCharString ADVANCE_WIDTH (box_rect_path 100 0 400 700));
       reflexivity|].
    constructor; [exists (mkCharString ADVANCE_WIDTH []); reflexivity|].
    apply Forall_fmap, Forall_fmap, Forall_forall. intros [c name] Hin. simpl.
    rewrite (draw_named_uni c name Hin).
    pose proof uni_name_roundtrip as Hall. rewrite Forall_forall in Hall.
    destruct (Hall _ Hin) as (_ & _ & Hreg). cbn [snd] in Hreg.
    rewrite (Hdraws name Hreg). eexists. reflexivity.
Qed.

End Tables.

Lemma build_font_tables_agree_witness :
  match @build_font RefMath.reference with
  | Py.Ok font => length (glyphOrder font) = 69%nat /\ NoDup (glyphOrder font)
  | Py.Raise _ => False
  end.
Proof.
  assert (Hr : Py.raised (@build_font RefMath.reference) = false)
    by (vm_compute; reflexivity).
  destruct (@build_font RefMath.reference) as [font|e] eqn:E; [|discriminate Hr].
  pose proof (@build_font_tables_agree RefMath.reference font E) as Ht.
  split; [exact (proj1 Ht) | exact (proj1 (proj2 Ht))].
Defined.

Lemma font_glyph_of_codepoint_witness :
  match @build_font RefMath.reference with
  | Py.Ok font =>
      GLYPH_MAP !! 0xE108 = Some "rad:sun" /\
      characterMap font !! 0xE108 = Some (uni_name 0xE108)
  | Py.Raise _ => False
  end.
Proof.
  assert (Hr : Py.raised (@build_font RefMath.reference) = false)
    by (vm_compute; reflexivity).
  assert (Hc : GLYPH_MAP !! 0xE108 = Some "rad:sun") by (vm_compute; reflexivity).
  destruct (@build_font RefMath.reference) as [font|e] eqn:E; [|discriminate Hr].
  split; [exact Hc|].
  exact (proj1 (proj2 (@font_glyph_of_codepoint RefMath.reference font 0xE108
                         "rad:sun" E Hc))).
Defined.
